(** * The 2R manipulator widget (MHK.py): solver, redraw handler and sliders

    The program is one PyQt window.  Four sliders hold integers; every
    change calls [update_plot], which divides the four slider values by
    [100.0], calls [inverse_kinematics] and either draws the arm through
    [plot_robot_arm] or writes a message on the canvas.

    The solver computes on Python floats, that is on IEEE 754 binary64
    numbers.  It is embedded three times.

    - [Python]: the solver as CPython and numpy run it, on primitive
      floats, for arbitrary arguments.  [v ** 2] goes through C's [pow]
      and raises [OverflowError] when a finite base gives an infinite
      result; [a / b] raises [ZeroDivisionError] on a zero divisor;
      everything else is IEEE arithmetic, in which [nan] and the
      infinities propagate.  C's [pow] and numpy's [sin], [cos] and
      [arctan2] are not part of the program: they are a parameter, and
      [pow_sane] and [numpy_sane] list what the statements use of them.
      The statements about every call are made on this embedding.

    - [Binary64]: the same evaluation with the correctly rounded square
      for [v ** 2] and no overflow check, for the calls of the window,
      whose arguments are slider values divided by 100.  The two
      embeddings agree wherever no square overflows
      ([embeddings_agree]).

    - Over the real numbers: the formula in exact arithmetic, with the
      mathematical elementary functions.  It is what the program
      approximates.  It decides what does not depend on rounding: the
      shape of the result, the ranges of the arguments the window
      passes, and the worked example to two decimals. *)

From Stdlib Require Import Floats.
From Stdlib Require Import Reals Machin Lra Lia ZArith List Bool.
Import ListNotations.

Local Open Scope R_scope.

(** ** Python results: a value or a raised exception *)

Inductive exn : Set := ZeroDivisionError.

Inductive py (A : Type) : Type :=
| Return (a : A)
| Raise (e : exn).

Arguments Return {A} a.
Arguments Raise {A} e.

Definition bind {A B : Type} (m : py A) (k : A -> py B) : py B :=
  match m with
  | Return a => k a
  | Raise e => Raise e
  end.

Notation "x <- m ;; k" := (bind m (fun x => k))
  (at level 61, m at next level, right associativity).

(** [a / b] on Python floats raises when the divisor is zero. *)
Definition py_div (a b : R) : py R :=
  if Req_dec_T b 0 then Raise ZeroDivisionError else Return (a / b).

(** ** numpy scalars: a real number or [nan] *)

Inductive float64 : Type :=
| Num (r : R)
| NaN.

Definition lift1 (f : R -> R) (a : float64) : float64 :=
  match a with
  | Num r => Num (f r)
  | NaN => NaN
  end.

Definition lift2 (f : R -> R -> R) (a b : float64) : float64 :=
  match a, b with
  | Num r, Num s => Num (f r s)
  | _, _ => NaN
  end.

Definition np_add : float64 -> float64 -> float64 := lift2 Rplus.
Definition np_sub : float64 -> float64 -> float64 := lift2 Rminus.
Definition np_mul : float64 -> float64 -> float64 := lift2 Rmult.

(** [np.sqrt] answers [nan] on a negative argument. *)
Definition np_sqrt (a : float64) : float64 :=
  match a with
  | Num r => if Rlt_dec r 0 then NaN else Num (sqrt r)
  | NaN => NaN
  end.

(** The two-argument arctangent, with the conventions of C's [atan2]:
    the angle of the point [(x, y)] in [(-PI, PI]], and [0] at the
    origin. *)
Definition arctan2 (y x : R) : R :=
  if Rlt_dec 0 x then atan (y / x)
  else if Rlt_dec x 0 then
    if Rle_dec 0 y then atan (y / x) + PI else atan (y / x) - PI
  else if Rlt_dec 0 y then PI / 2
  else if Rlt_dec y 0 then - (PI / 2)
  else 0.

Definition degrees (t : R) : R := t * (180 / PI).
Definition radians (d : R) : R := d * (PI / 180).

Definition np_arctan2 : float64 -> float64 -> float64 := lift2 arctan2.
Definition np_sin : float64 -> float64 := lift1 sin.
Definition np_cos : float64 -> float64 := lift1 cos.
Definition np_degrees : float64 -> float64 := lift1 degrees.
Definition np_radians : float64 -> float64 := lift1 radians.

(** ** The solver *)

(** The law-of-cosines quotient of the first statement, before the
    division is attempted. *)
Definition D_num (x y L1 L2 : R) : R := x ^ 2 + y ^ 2 - L1 ^ 2 - L2 ^ 2.
Definition D_den (L1 L2 : R) : R := 2 * L1 * L2.

Definition angles : Type := option float64 * option float64.

Definition inverse_kinematics (x y L1 L2 : R) : py angles :=
  D <- py_div (D_num x y L1 L2) (D_den L1 L2) ;;
  if Rlt_dec 1 (Rabs D) then Return (None, None)
  else
    let theta2 := np_arctan2 (np_sqrt (Num (1 - D ^ 2))) (Num D) in
    let theta1 :=
      np_sub (np_arctan2 (Num y) (Num x))
             (np_arctan2 (np_mul (Num L2) (np_sin theta2))
                         (np_add (Num L1) (np_mul (Num L2) (np_cos theta2)))) in
    Return (Some (np_degrees theta1), Some (np_degrees theta2)).

(** The quotient and the two angles, in radians, as real expressions;
    the statements below are phrased with them. *)
Definition D_value (x y L1 L2 : R) : R := D_num x y L1 L2 / D_den L1 L2.

Definition elbow_angle (D : R) : R := arctan2 (sqrt (1 - D ^ 2)) D.

Definition shoulder_angle (x y L1 L2 D : R) : R :=
  arctan2 y x
  - arctan2 (L2 * sin (elbow_angle D)) (L1 + L2 * cos (elbow_angle D)).

(** ** Drawing *)

Record drawing : Type := {
  joint1_x : float64;
  joint1_y : float64;
  end_effector_x : float64;
  end_effector_y : float64;
  xlim : float64 * float64;
  ylim : float64 * float64
}.

Inductive canvas : Type :=
| Arm (d : drawing) (label1 label2 : float64)
| Message.

Definition plot_robot_arm (theta1 theta2 : float64) (L1 L2 : R) : canvas :=
  let theta1_rad := np_radians theta1 in
  let theta2_rad := np_radians theta2 in
  let j1x := np_mul (Num L1) (np_cos theta1_rad) in
  let j1y := np_mul (Num L1) (np_sin theta1_rad) in
  let ex := np_add j1x (np_mul (Num L2) (np_cos (np_add theta1_rad theta2_rad))) in
  let ey := np_add j1y (np_mul (Num L2) (np_sin (np_add theta1_rad theta2_rad))) in
  Arm {| joint1_x := j1x; joint1_y := j1y;
         end_effector_x := ex; end_effector_y := ey;
         xlim := (Num (- L1 - L2 - 1), Num (L1 + L2 + 1));
         ylim := (Num (- L1 - L2 - 1), Num (L1 + L2 + 1)) |}
      theta1 theta2.

(** The caller's test [theta1 is not None and theta2 is not None]. *)
Definition is_not_None {A : Type} (o : option A) : bool :=
  match o with
  | Some _ => true
  | None => false
  end.

Definition solved (r : angles) : bool :=
  is_not_None (fst r) && is_not_None (snd r).

(** ** Sliders

    [QSlider] is Qt's; its documented behaviour is all the window relies
    on: a new slider has range [0..99] and value [0], [setRange] keeps
    [minimum <= maximum] and re-bounds the value, [setValue] bounds its
    argument into the range. *)

Module Qt.

Record QSlider : Set := {
  minimum : Z;
  maximum : Z;
  value : Z
}.

Definition qBound (lo v hi : Z) : Z := Z.max lo (Z.min hi v).

Definition new : QSlider := {| minimum := 0; maximum := 99; value := 0 |}.

Definition setRange (lo hi : Z) (s : QSlider) : QSlider :=
  let hi' := Z.max lo hi in
  {| minimum := lo; maximum := hi'; value := qBound lo (value s) hi' |}.

Definition setValue (v : Z) (s : QSlider) : QSlider :=
  {| minimum := minimum s; maximum := maximum s;
     value := qBound (minimum s) v (maximum s) |}.

End Qt.

(** ** The window *)

Record Window : Set := {
  slider_x : Qt.QSlider;
  slider_y : Qt.QSlider;
  slider_L1 : Qt.QSlider;
  slider_L2 : Qt.QSlider
}.

(** [create_slider_with_label]: the range and the initial value are set
    before any callback is connected. *)
Definition create_slider_with_label (min_val max_val init_val : Z) : Qt.QSlider :=
  Qt.setValue init_val (Qt.setRange min_val max_val Qt.new).

Definition init_ui : Window :=
  {| slider_x := create_slider_with_label (-600) 600 200;
     slider_y := create_slider_with_label (-600) 600 200;
     slider_L1 := create_slider_with_label 1 600 200;
     slider_L2 := create_slider_with_label 1 600 200 |}.

(** The four arguments [update_plot] reads off the sliders. *)
Record call : Type := {
  arg_x : R;
  arg_y : R;
  arg_L1 : R;
  arg_L2 : R
}.

Definition slider_reading (s : Qt.QSlider) : R := IZR (Qt.value s) / 100.

Definition update_plot_call (w : Window) : call :=
  {| arg_x := slider_reading (slider_x w);
     arg_y := slider_reading (slider_y w);
     arg_L1 := slider_reading (slider_L1 w);
     arg_L2 := slider_reading (slider_L2 w) |}.

Definition solve (c : call) : py angles :=
  inverse_kinematics (arg_x c) (arg_y c) (arg_L1 c) (arg_L2 c).

Definition update_plot (w : Window) : py canvas :=
  let c := update_plot_call w in
  r <- solve c ;;
  if solved r then
    match r with
    | (Some theta1, Some theta2) =>
        Return (plot_robot_arm theta1 theta2 (arg_L1 c) (arg_L2 c))
    | _ => Return Message
    end
  else Return Message.

(** User input: some slider is asked to take some integer value.  Qt
    bounds the value and emits [valueChanged] only when the stored value
    is a different one; the connected callback is [update_plot]. *)
Inductive slider_id : Set := SX | SY | SL1 | SL2.

Record event : Set := { target : slider_id; requested : Z }.

Definition get_slider (i : slider_id) (w : Window) : Qt.QSlider :=
  match i with
  | SX => slider_x w
  | SY => slider_y w
  | SL1 => slider_L1 w
  | SL2 => slider_L2 w
  end.

Definition set_slider (i : slider_id) (s : Qt.QSlider) (w : Window) : Window :=
  match i with
  | SX => {| slider_x := s; slider_y := slider_y w;
             slider_L1 := slider_L1 w; slider_L2 := slider_L2 w |}
  | SY => {| slider_x := slider_x w; slider_y := s;
             slider_L1 := slider_L1 w; slider_L2 := slider_L2 w |}
  | SL1 => {| slider_x := slider_x w; slider_y := slider_y w;
              slider_L1 := s; slider_L2 := slider_L2 w |}
  | SL2 => {| slider_x := slider_x w; slider_y := slider_y w;
              slider_L1 := slider_L1 w; slider_L2 := s |}
  end.

Definition handle (e : event) (w : Window) : Window * bool :=
  let old := get_slider (target e) w in
  let s := Qt.setValue (requested e) old in
  (set_slider (target e) s w, negb (Qt.value s =? Qt.value old)%Z).

(** The windows at which [update_plot] runs while the events are
    handled, oldest first. *)
Fixpoint redraws (w : Window) (evs : list event) : list Window :=
  match evs with
  | [] => []
  | e :: rest =>
      let (w', changed) := handle e w in
      (if changed then [w'] else []) ++ redraws w' rest
  end.

(** Every call of the solver in a run of the program: the one that ends
    [init_ui], then one for each emitted [valueChanged]. *)
Definition solver_calls (evs : list event) : list call :=
  map update_plot_call (init_ui :: redraws init_ui evs).

(** What the window keeps true of a slider: the range given at creation
    and a value inside it. *)
Definition ranged (lo hi : Z) (s : Qt.QSlider) : Prop :=
  Qt.minimum s = lo /\ Qt.maximum s = hi /\ (lo <= Qt.value s <= hi)%Z.

Definition well_ranged (w : Window) : Prop :=
  ranged (-600) 600 (slider_x w) /\ ranged (-600) 600 (slider_y w) /\
  ranged 1 600 (slider_L1 w) /\ ranged 1 600 (slider_L2 w).

(** ** The solver on binary64 numbers

    The same statements, evaluated with IEEE 754 double precision
    arithmetic.  [numpy]'s [sin], [cos] and [arctan2] are not part of the
    program; they are taken as a parameter [libm], and [conforming] lists
    what is used of them: the special cases of [atan2] fixed by C99
    (Annex F.9.1.4) and the values of [sin] and [cos] at [np.pi], the
    double nearest to the number pi.  [v ** 2] is the correctly rounded
    square. *)

Module Binary64.

Local Open Scope float_scope.

Record libm : Set := {
  sin : float -> float;
  cos : float -> float;
  arctan2 : float -> float -> float
}.

Definition pi : float := 0x1.921fb54442d18p+1.

Definition degrees (t : float) : float := t * (180 / pi).

Definition py_div (a b : float) : py float :=
  if b =? 0 then Raise ZeroDivisionError else Return (a / b).

(** [v ** 2] *)
Definition square (v : float) : float := v * v.

Definition D_num (x y L1 L2 : float) : float :=
  square x + square y - square L1 - square L2.

Definition D_den (L1 L2 : float) : float := 2 * L1 * L2.

Definition inverse_kinematics (m : libm) (x y L1 L2 : float)
  : py (option float * option float) :=
  D <- py_div (D_num x y L1 L2) (D_den L1 L2) ;;
  if 1 <? abs D then Return (None, None)
  else
    let theta2 := arctan2 m (PrimFloat.sqrt (1 - square D)) D in
    let theta1 :=
      arctan2 m y x
      - arctan2 m (L2 * sin m theta2) (L1 + L2 * cos m theta2) in
    Return (Some (degrees theta1), Some (degrees theta2)).

Record conforming (m : libm) : Prop := {
  arctan2_zero_neg : forall x, (x <? 0) = true -> arctan2 m 0 x = pi;
  arctan2_zero_zero : arctan2 m 0 0 = 0;
  arctan2_pos_zero : forall y, (0 <? y) = true -> arctan2 m y 0 = pi / 2;
  sin_pi : sin m pi = 0x1.1a62633145c07p-53;
  cos_pi : cos m pi = (-1)
}.

(** A table with these values and nothing else; it shows that
    [conforming] can be met. *)
Definition table : libm :=
  {| sin := fun _ => 0x1.1a62633145c07p-53;
     cos := fun _ => (-1);
     arctan2 := fun y x =>
       if x <? 0 then pi else if 0 <? y then pi / 2 else 0 |}.

(** [value / 100.0] in [update_plot]: the integer is converted exactly,
    the division rounds. *)
Definition of_Z (v : Z) : float :=
  if (v <? 0)%Z then - of_uint63 (Uint63.of_Z (- v))
  else of_uint63 (Uint63.of_Z v).

Definition slider_reading (s : Qt.QSlider) : float := of_Z (Qt.value s) / 100.

Definition solve (m : libm) (w : Window) : py (option float * option float) :=
  inverse_kinematics m
    (slider_reading (slider_x w)) (slider_reading (slider_y w))
    (slider_reading (slider_L1 w)) (slider_reading (slider_L2 w)).

(** The real number a finite binary64 value stands for. *)
Definition real_value (v : float) : option R :=
  match Prim2SF v with
  | S754_zero _ => Some 0%R
  | S754_finite s m e =>
      let a := (IZR (Zpos m) * powerRZ 2 e)%R in
      Some (if s then (- a)%R else a)
  | S754_infinity _ | S754_nan => None
  end.

(** The guard alone: [true] when the call answers [(None, None)]. *)
Definition refused (x y L1 L2 : float) : bool :=
  match py_div (D_num x y L1 L2) (D_den L1 L2) with
  | Return D => 1 <? abs D
  | Raise _ => false
  end.

(** The argument [update_plot] passes for a slider holding [k]. *)
Definition hundredths (k : Z) : float := of_Z k / 100.

(** [x] is the double of [L], read off the two representations: same
    mantissa, exponent one higher. *)
Definition doubles (x L : float) : bool :=
  match Prim2SF x, Prim2SF L with
  | S754_finite false mx ex, S754_finite false ml el =>
      Pos.eqb mx ml && Z.eqb ex (el + 1)
  | _, _ => false
  end.

End Binary64.

(** The window after the user has set [x = 0.60], [y = 0.00] and
    [L1 = L2 = 0.30]: the arm stretched out along the x axis. *)
Definition stretched_out : Window :=
  fold_left (fun w e => fst (handle e w))
    [ {| target := SX; requested := 60 |}; {| target := SY; requested := 0 |};
      {| target := SL1; requested := 30 |}; {| target := SL2; requested := 30 |} ]
    init_ui.

(** ** Labels

    Each slider has a label.  It is created with the text
    [f'{label} {init_val:.2f}'] and rewritten on every [valueChanged] with
    [f'{lbl} {value / 100.0:.2f}'].  The embedding keeps the number the
    text shows, a decimal with two digits after the point: for a slider
    value [k] between -600 and 600 the second text is the decimal [k/100]
    itself, the rounding of the quotient being far below the digits
    shown. *)

Definition slider_id_eqb (i j : slider_id) : bool :=
  match i, j with
  | SX, SX | SY, SY | SL1, SL1 | SL2, SL2 => true
  | _, _ => false
  end.

Record Gui : Type := {
  window : Window;
  label_number : slider_id -> R
}.

Definition create_label (init_val : Z) : R := IZR init_val.

Definition init_labels (i : slider_id) : R :=
  match i with
  | SX => create_label 200
  | SY => create_label 200
  | SL1 => create_label 200
  | SL2 => create_label 200
  end.

Definition gui_start : Gui :=
  {| window := init_ui; label_number := init_labels |}.

(** The first callback connected to [valueChanged]. *)
Definition set_label (i : slider_id) (value : Z) (labels : slider_id -> R)
  : slider_id -> R :=
  fun j => if slider_id_eqb j i then IZR value / 100 else labels j.

Definition gui_handle (e : event) (g : Gui) : Gui :=
  let (w', changed) := handle e (window g) in
  {| window := w';
     label_number :=
       if changed
       then set_label (target e) (Qt.value (get_slider (target e) w'))
                      (label_number g)
       else label_number g |}.

Definition gui_run (evs : list event) : Gui :=
  fold_left (fun g e => gui_handle e g) evs gui_start.

(** Slider [i] has emitted [valueChanged] while [evs] were handled,
    starting from the window [w]. *)
Fixpoint emitted (i : slider_id) (w : Window) (evs : list event) : bool :=
  match evs with
  | [] => false
  | e :: rest =>
      let (w', changed) := handle e w in
      (changed && slider_id_eqb (target e) i) || emitted i w' rest
  end.

(** What the label of slider [i] shows: the value read off the slider,
    once the slider has changed; before that the slider holds 200 and
    the label shows that integer. *)
Definition label_shows (has_changed : bool) (g : Gui) (i : slider_id) : Prop :=
  let s := get_slider i (window g) in
  if has_changed then label_number g i = slider_reading s
  else Qt.value s = 200%Z /\ label_number g i = 200.

(** ** Slider settings, enumerated *)

Definition zrange (lo : Z) (n : nat) : list Z :=
  map (fun i => (lo + Z.of_nat i)%Z) (seq 0 n).

(** Both links at [k/100] and the target at [(2k/100, 0)]: the arm
    stretched out along the x axis. *)
Definition stretched_refused_at (k : Z) : bool :=
  Binary64.refused (Binary64.hundredths (2 * k)) (Binary64.hundredths 0)
                   (Binary64.hundredths k) (Binary64.hundredths k).

Definition stretched_refused : list Z :=
  Eval vm_compute in filter stretched_refused_at (zrange 1 300).

(** ** Classes of binary64 representations

    [Prim2SF] gives the representation of a binary64 number: a signed
    zero, a signed infinity, [nan], or sign, mantissa and exponent of a
    finite number that is not zero. *)

(** [+0], a positive number or [+inf]. *)
Definition SFplus (f : spec_float) : Prop :=
  match f with
  | S754_zero false | S754_infinity false | S754_finite false _ _ => True
  | _ => False
  end.

(** A zero or a finite number. *)
Definition SFnum (f : spec_float) : Prop :=
  match f with
  | S754_zero _ | S754_finite _ _ _ => True
  | _ => False
  end.

(** A zero, or a finite number whose exponent is at most [E]. *)
Definition SFbelow (E : Z) (f : spec_float) : Prop :=
  match f with
  | S754_zero _ => True
  | S754_finite _ _ e => (e <= E)%Z
  | _ => False
  end.

(** Not [nan] and the sign bit clear: [+0.0], a positive number or
    [+inf]. *)
Definition plus_signed (v : float) : bool :=
  match classify v with
  | PZero | PSubn | PNormal | PInf => true
  | _ => false
  end.

(** ** The solver as CPython and numpy run it

    The arguments are Python floats.  Two operations of the solver can
    raise.  [v ** 2] is CPython's [float_pow]: [nan], the infinities, the
    zeros and [1.0], [-1.0] are settled without C's [pow]; otherwise
    [pow(abs v, 2.0)] is computed and an infinite result raises
    [OverflowError] (an underflowing one does not raise).  [a / b] raises
    [ZeroDivisionError] when [b] is a zero.  Sums, differences and products
    of Python floats and of numpy scalars are IEEE operations and never
    raise, and [abs(D) > 1] is false on [nan].

    [platform] holds what the C library and numpy contribute: [pow2 a] is
    [pow(a, 2.0)], [numpy] holds [np.sin], [np.cos], [np.arctan2].
    [np.sqrt] is the IEEE square root, [np.degrees t] is [t * (180 / pi)]
    and [np.radians d] is [d * (pi / 180)]. *)

Module Python.

Local Open Scope float_scope.

Inductive exception : Set := ZeroDivisionError | OverflowError.

Inductive outcome (A : Type) : Type :=
| Returns (a : A)
| Raises (e : exception).

Arguments Returns {A} a.
Arguments Raises {A} e.

Definition and_then {A B : Type} (m : outcome A) (k : A -> outcome B) : outcome B :=
  match m with
  | Returns a => k a
  | Raises e => Raises e
  end.

Notation "x <~ m ;; k" := (and_then m (fun x => k))
  (at level 61, m at next level, right associativity).

Record platform : Set := {
  pow2 : float -> float;
  numpy : Binary64.libm
}.

(** [v ** 2] *)
Definition float_pow2 (p : platform) (v : float) : outcome float :=
  if is_nan v then Returns v
  else if is_infinity v then Returns (abs v)
  else if v =? 0 then Returns 0
  else
    let a := abs v in
    if a =? 1 then Returns 1
    else
      let r := pow2 p a in
      if is_infinity r then Raises OverflowError else Returns r.

(** [a / b] *)
Definition float_div (a b : float) : outcome float :=
  if b =? 0 then Raises ZeroDivisionError else Returns (a / b).

(** [theta2] and [theta1] in radians, from [D ** 2] and [D]. *)
Definition elbow (m : Binary64.libm) (D2 D : float) : float :=
  Binary64.arctan2 m (PrimFloat.sqrt (1 - D2)) D.

Definition shoulder (m : Binary64.libm) (x y L1 L2 theta2 : float) : float :=
  Binary64.arctan2 m y x
  - Binary64.arctan2 m (L2 * Binary64.sin m theta2)
                       (L1 + L2 * Binary64.cos m theta2).

Definition inverse_kinematics (p : platform) (x y L1 L2 : float)
  : outcome (option float * option float) :=
  x2 <~ float_pow2 p x ;;
  y2 <~ float_pow2 p y ;;
  L1_2 <~ float_pow2 p L1 ;;
  L2_2 <~ float_pow2 p L2 ;;
  D <~ float_div (x2 + y2 - L1_2 - L2_2) (2 * L1 * L2) ;;
  if 1 <? abs D then Returns (None, None)
  else
    D2 <~ float_pow2 p D ;;
    let theta2 := elbow (numpy p) D2 D in
    let theta1 := shoulder (numpy p) x y L1 L2 theta2 in
    Returns (Some (Binary64.degrees theta1), Some (Binary64.degrees theta2)).

(** [v ** 2] raises. *)
Definition overflows (p : platform) (v : float) : bool :=
  match float_pow2 p v with
  | Raises _ => true
  | Returns _ => false
  end.

(** The value of [v ** 2] when it does not raise. *)
Definition squared (p : platform) (v : float) : float :=
  match float_pow2 p v with
  | Returns s => s
  | Raises _ => infinity
  end.

(** One of the four squares of the first statement raises. *)
Definition some_square_overflows (p : platform) (x y L1 L2 : float) : bool :=
  overflows p x || overflows p y || overflows p L1 || overflows p L2.

(** The quotient [D] of the first statement, when nothing raises. *)
Definition D_num (p : platform) (x y L1 L2 : float) : float :=
  squared p x + squared p y - squared p L1 - squared p L2.

Definition D_value (p : platform) (x y L1 L2 : float) : float :=
  D_num p x y L1 L2 / Binary64.D_den L1 L2.

(** The platform of [Binary64]: [pow] is correctly rounded. *)
Definition correctly_rounded (m : Binary64.libm) : platform :=
  {| pow2 := Binary64.square; numpy := m |}.

(** What the statements use of C's [pow]: the square of a number
    strictly between 0 and 1 is a number between 0 and 1. *)
Definition pow_sane (p : platform) : Prop :=
  forall a, (0 <? a) = true -> (a <? 1) = true ->
    (0 <=? pow2 p a) = true /\ (pow2 p a <=? 1) = true.

(** What the statements use of numpy.  [arctan2] answers [nan] on a
    [nan] and otherwise an angle between [-pi] and [pi], between [0] and
    [pi] when its first argument is [+0.0], positive or [+inf] (C99,
    F.9.1.4); [sin nan] is [nan]; [sin] and [cos] of a finite number lie
    between [-1] and [1].  Here [pi] is [np.pi]. *)
Record numpy_sane (m : Binary64.libm) : Prop := {
  arctan2_nan : forall y x,
    is_nan y = true \/ is_nan x = true -> Binary64.arctan2 m y x = nan;
  arctan2_range : forall y x,
    is_nan y = false -> is_nan x = false ->
    (abs (Binary64.arctan2 m y x) <=? Binary64.pi) = true;
  arctan2_upper : forall y x,
    plus_signed y = true -> is_nan x = false ->
    (0 <=? Binary64.arctan2 m y x) = true /\
    (Binary64.arctan2 m y x <=? Binary64.pi) = true;
  sin_nan : Binary64.sin m nan = nan;
  sin_range : forall t, is_finite t = true -> (abs (Binary64.sin m t) <=? 1) = true;
  cos_range : forall t, is_finite t = true -> (abs (Binary64.cos m t) <=? 1) = true
}.

(** A libm of few values; it shows that [numpy_sane] can be met. *)
Definition coarse : Binary64.libm :=
  {| Binary64.sin := fun t => if is_finite t then 0 else nan;
     Binary64.cos := fun t => if is_finite t then 1 else nan;
     Binary64.arctan2 := fun y x =>
       if is_nan y || is_nan x then nan
       else if plus_signed y then (if x <? 0 then Binary64.pi else 0)
       else (if x <? 0 then - Binary64.pi else - 0) |}.

(** [plot_robot_arm]: the two joints and the axis limits. *)
Definition radians (d : float) : float := d * (Binary64.pi / 180).

Record picture : Set := {
  joint1 : float * float;
  end_effector : float * float;
  x_limits : float * float;
  y_limits : float * float
}.

Definition plot_robot_arm (m : Binary64.libm) (theta1 theta2 L1 L2 : float) : picture :=
  let theta1_rad := radians theta1 in
  let theta2_rad := radians theta2 in
  let joint1 := (L1 * Binary64.cos m theta1_rad, L1 * Binary64.sin m theta1_rad) in
  let end_effector :=
    (fst joint1 + L2 * Binary64.cos m (theta1_rad + theta2_rad),
     snd joint1 + L2 * Binary64.sin m (theta1_rad + theta2_rad)) in
  {| joint1 := joint1;
     end_effector := end_effector;
     x_limits := (- L1 - L2 - 1, L1 + L2 + 1);
     y_limits := (- L1 - L2 - 1, L1 + L2 + 1) |}.

(** A result of [Binary64] as an outcome. *)
Definition of_py {A : Type} (r : py A) : outcome A :=
  match r with
  | Return a => Returns a
  | Raise _ => Raises ZeroDivisionError
  end.

End Python.

(** * Properties *)

(** ** The two-argument arctangent *)






(** ** The three ways out of the solver *)

Lemma py_div_Return (a b : R) : b <> 0 -> py_div a b = Return (a / b).
Proof.
  intros Hb. unfold py_div. now destruct (Req_dec_T b 0).
Qed.

Lemma py_div_Raise (a b : R) : b = 0 -> py_div a b = Raise ZeroDivisionError.
Proof.
  intros Hb. unfold py_div. now destruct (Req_dec_T b 0).
Qed.

Lemma D_den_zero (L1 L2 : R) : D_den L1 L2 = 0 <-> L1 = 0 \/ L2 = 0.
Proof.
  unfold D_den. split.
  - intros H. destruct (Rmult_integral _ _ H) as [H1 | H2]; [|now right].
    destruct (Rmult_integral _ _ H1); [lra | now left].
  - intros [-> | ->]; ring.
Qed.

Lemma D_den_nonzero (L1 L2 : R) : D_den L1 L2 <> 0 <-> L1 * L2 <> 0.
Proof.
  unfold D_den. split; intros H E; apply H; nra.
Qed.

Lemma Rabs_le_iff (a b : R) : Rabs a <= b <-> - b <= a <= b.
Proof.
  unfold Rabs. destruct (Rcase_abs a); lra.
Qed.

Lemma Rabs_le_1_sqr (D : R) : Rabs D <= 1 -> 0 <= 1 - D ^ 2.
Proof.
  intros H. apply Rabs_le_iff in H. nra.
Qed.

Section Solver.

Variables x y L1 L2 : R.

Local Notation "'D'" := (D_value x y L1 L2).

Lemma inverse_kinematics_raise :
  D_den L1 L2 = 0 ->
  inverse_kinematics x y L1 L2 = Raise ZeroDivisionError.
Proof.
  intros H. unfold inverse_kinematics. now rewrite py_div_Raise.
Qed.

Lemma inverse_kinematics_unreachable :
  D_den L1 L2 <> 0 ->
  1 < Rabs D ->
  inverse_kinematics x y L1 L2 = Return (None, None).
Proof.
  intros Hden HD. unfold inverse_kinematics.
  rewrite py_div_Return by assumption. cbn [bind].
  fold D.
  now destruct (Rlt_dec 1 (Rabs D)).
Qed.

Lemma inverse_kinematics_angles :
  D_den L1 L2 <> 0 ->
  Rabs D <= 1 ->
  inverse_kinematics x y L1 L2 =
  Return (Some (Num (degrees (shoulder_angle x y L1 L2 D))),
          Some (Num (degrees (elbow_angle D)))).
Proof.
  intros Hden HD. unfold inverse_kinematics.
  rewrite py_div_Return by assumption. cbn [bind].
  fold D.
  destruct (Rlt_dec 1 (Rabs D)) as [Hgt | _]; [lra|].
  pose proof (Rabs_le_1_sqr _ HD) as Hsq.
  unfold np_sqrt.
  destruct (Rlt_dec (1 - D ^ 2) 0) as [Hneg | _]; [lra|].
  reflexivity.
Qed.

(** Every result of the solver is one of the three above. *)
Lemma inverse_kinematics_inv (r : angles) :
  inverse_kinematics x y L1 L2 = Return r ->
  D_den L1 L2 <> 0 /\
  ((1 < Rabs D /\ r = (None, None)) \/
   (Rabs D <= 1 /\
    r = (Some (Num (degrees (shoulder_angle x y L1 L2 D))),
         Some (Num (degrees (elbow_angle D)))))).
Proof.
  intros H.
  destruct (Req_dec_T (D_den L1 L2) 0) as [Hz | Hnz].
  - rewrite inverse_kinematics_raise in H by assumption. discriminate.
  - split; [assumption|].
    destruct (Rlt_dec 1 (Rabs D)) as [Hgt | Hle].
    + left. rewrite inverse_kinematics_unreachable in H by assumption.
      split; [assumption | congruence].
    + right. apply Rnot_lt_le in Hle.
      rewrite inverse_kinematics_angles in H by assumption.
      split; [assumption | congruence].
Qed.

Lemma inverse_kinematics_returns :
  L1 * L2 <> 0 -> exists r, inverse_kinematics x y L1 L2 = Return r.
Proof.
  intros H. apply (proj2 (D_den_nonzero L1 L2)) in H.
  destruct (Rlt_dec 1 (Rabs D)) as [Hgt | Hle].
  - rewrite inverse_kinematics_unreachable by assumption. eauto.
  - apply Rnot_lt_le in Hle.
    rewrite inverse_kinematics_angles by assumption. eauto.
Qed.

Lemma inverse_kinematics_raises_only_at_zero (e : exn) :
  inverse_kinematics x y L1 L2 = Raise e -> L1 = 0 \/ L2 = 0.
Proof.
  intros He. apply D_den_zero.
  destruct (Req_dec_T (D_den L1 L2) 0) as [Hz | Hnz]; [assumption|].
  apply (proj1 (D_den_nonzero L1 L2)) in Hnz.
  destruct (inverse_kinematics_returns Hnz) as [r Hr]. congruence.
Qed.

End Solver.

(** Case analysis on a result [H : inverse_kinematics _ _ _ _ = Return _]:
    the guard was taken, or it was not. *)
Ltac solver_inv H :=
  let HD := fresh "HD" in
  let E := fresh "E" in
  destruct (inverse_kinematics_inv _ _ _ _ _ H) as [_ [[HD E] | [HD E]]].

(** ** The reachable annulus *)

Lemma hypot_sqr (x y : R) :
  0 <= sqrt (x ^ 2 + y ^ 2) /\
  sqrt (x ^ 2 + y ^ 2) * sqrt (x ^ 2 + y ^ 2) = x ^ 2 + y ^ 2.
Proof.
  split; [apply sqrt_pos|].
  apply sqrt_sqrt. pose proof (pow2_ge_0 x). pose proof (pow2_ge_0 y). lra.
Qed.

(** [D + 1] and [D - 1] as quotients by the positive denominator. *)
Lemma D_value_bounds (x y L1 L2 : R) :
  0 < L1 -> 0 < L2 ->
  (D_value x y L1 L2 <= 1 <-> x ^ 2 + y ^ 2 <= (L1 + L2) ^ 2) /\
  (-1 <= D_value x y L1 L2 <-> (L1 - L2) ^ 2 <= x ^ 2 + y ^ 2).
Proof.
  intros H1 H2.
  assert (Hden : 0 < D_den L1 L2) by (unfold D_den; nra).
  unfold D_value.
  assert (Hi : 0 < / D_den L1 L2) by now apply Rinv_0_lt_compat.
  assert (E : D_den L1 L2 * / D_den L1 L2 = 1) by (apply Rinv_r; lra).
  unfold Rdiv. unfold D_num, D_den in *.
  repeat split; intros H; nra.
Qed.

Lemma reachable_iff (x y L1 L2 : R) :
  0 < L1 -> 0 < L2 ->
  (Rabs (L1 - L2) <= sqrt (x ^ 2 + y ^ 2) <= L1 + L2 <->
   Rabs (D_value x y L1 L2) <= 1).
Proof.
  intros H1 H2.
  destruct (hypot_sqr x y) as [Hr0 Hrr].
  destruct (D_value_bounds x y L1 L2 H1 H2) as [Hup Hlo].
  rewrite <- Hrr in Hup, Hlo.
  rewrite !Rabs_le_iff, Hup, Hlo.
  set (r := sqrt (x ^ 2 + y ^ 2)) in *.
  split.
  - intros [[Ha Hb] Hc]. split; nra.
  - intros [Ha Hb]. repeat split.
    + destruct (Rle_lt_dec (- r) (L1 - L2)); [assumption | nra].
    + destruct (Rle_lt_dec (L1 - L2) r); [assumption | nra].
    + destruct (Rle_lt_dec r (L1 + L2)); [assumption | nra].
Qed.


(** ** The elbow angle *)



(** ** The shape of the result *)

(** C9.  A returned pair never has exactly one component absent: the
    first is [None] if and only if the second is, and the caller's test
    is true on a pair of angles and false on [(None, None)], so
    [update_plot] draws the arm in the first case and writes the message
    in the second. *)
Theorem result_is_both_or_neither (x y L1 L2 : R) (theta1 theta2 : option float64) :
  inverse_kinematics x y L1 L2 = Return (theta1, theta2) ->
  (theta1 = None <-> theta2 = None) /\
  ((solved (theta1, theta2) = true /\
    exists a b, theta1 = Some a /\ theta2 = Some b) \/
   (solved (theta1, theta2) = false /\ theta1 = None /\ theta2 = None)).
Proof.
  intros H.
  solver_inv H; injection E as -> ->.
  - split; [tauto|]. right. auto.
  - split; [split; discriminate|]. left. split; [reflexivity | eauto].
Qed.

Lemma result_is_both_or_neither_witness :
  exists theta1 theta2,
    inverse_kinematics 2 2 2 2 = Return (theta1, theta2) /\
    (theta1 = None <-> theta2 = None) /\
    solved (theta1, theta2) = true.
Proof.
  assert (HD : Rabs (D_value 2 2 2 2) <= 1).
  { unfold D_value, D_num, D_den.
    replace ((2 ^ 2 + 2 ^ 2 - 2 ^ 2 - 2 ^ 2) / (2 * 2 * 2)) with 0 by field.
    rewrite Rabs_R0. lra. }
  assert (Hden : D_den 2 2 <> 0) by (unfold D_den; lra).
  pose proof (inverse_kinematics_angles 2 2 2 2 Hden HD) as H.
  eexists _, _. split; [exact H|].
  destruct (result_is_both_or_neither 2 2 2 2 _ _ H) as [Hiff [[Hs _] | [Hs _]]].
  - split; assumption.
  - discriminate.
Defined.

(** The same classification seen from [update_plot]. *)
Lemma update_plot_branches (w : Window) :
  let c := update_plot_call w in
  (solve c = Return (None, None) /\ update_plot w = Return Message) \/
  (exists a b,
      solve c = Return (Some a, Some b) /\
      update_plot w = Return (plot_robot_arm a b (arg_L1 c) (arg_L2 c))) \/
  (exists e, solve c = Raise e /\ update_plot w = Raise e).
Proof.
  intros c. unfold update_plot. fold c.
  destruct (solve c) as [[t1 t2] | e] eqn:E.
  - unfold solve in E.
    solver_inv E; match goal with Eq : (t1, t2) = _ |- _ => injection Eq as -> -> end.
    + left. auto.
    + right. left. eexists _, _. split; reflexivity.
  - right. right. exists e. auto.
Qed.

(** ** Calls issued through the sliders *)

Lemma setValue_ranged (lo hi v : Z) (s : Qt.QSlider) :
  (lo <= hi)%Z -> ranged lo hi s -> ranged lo hi (Qt.setValue v s).
Proof.
  intros Hle (Hmin & Hmax & _). unfold ranged, Qt.setValue, Qt.qBound. cbn.
  rewrite Hmin, Hmax. repeat split; lia.
Qed.

Lemma create_slider_ranged (lo hi v : Z) :
  (lo <= hi)%Z -> ranged lo hi (create_slider_with_label lo hi v).
Proof.
  intros Hle. unfold create_slider_with_label.
  apply setValue_ranged; [assumption|].
  unfold ranged, Qt.setRange, Qt.qBound. cbn. repeat split; lia.
Qed.

Lemma init_ui_well_ranged : well_ranged init_ui.
Proof.
  unfold well_ranged, init_ui. cbn [slider_x slider_y slider_L1 slider_L2].
  refine (conj _ (conj _ (conj _ _))); apply create_slider_ranged; lia.
Qed.

Lemma handle_well_ranged (e : event) (w : Window) :
  well_ranged w -> well_ranged (fst (handle e w)).
Proof.
  intros (Hx & Hy & H1 & H2). unfold handle. cbn [fst].
  destruct e as [[] v]; unfold well_ranged; cbn;
    refine (conj _ (conj _ (conj _ _))); try assumption;
    apply setValue_ranged; (lia || assumption).
Qed.

Lemma redraws_well_ranged (evs : list event) :
  forall w, well_ranged w -> Forall well_ranged (redraws w evs).
Proof.
  induction evs as [| e rest IH]; intros w Hw; cbn [redraws].
  - constructor.
  - pose proof (handle_well_ranged e w Hw) as Hw'.
    destruct (handle e w) as [w' changed]. cbn [fst] in Hw'.
    apply Forall_app. split; [|now apply IH].
    destruct changed;
      [apply Forall_cons; [assumption | apply Forall_nil] | apply Forall_nil].
Qed.

Lemma slider_reading_bounds (lo hi : Z) (s : Qt.QSlider) :
  ranged lo hi s -> IZR lo / 100 <= slider_reading s <= IZR hi / 100.
Proof.
  intros (_ & _ & Hlo & Hhi). unfold slider_reading.
  apply IZR_le in Hlo, Hhi. lra.
Qed.

(** C10.  In every call of the solver that [update_plot] issues, at
    start-up or after any sequence of slider events, the link lengths lie
    in [[0.01, 6]] and the target coordinates in [[-6, 6]]; so
    [L1 * L2 > 0] and the call does not raise. *)
Theorem gui_calls_are_in_range (evs : list event) (c : call) :
  In c (solver_calls evs) ->
  (1 / 100 <= arg_L1 c <= 6 /\ 1 / 100 <= arg_L2 c <= 6) /\
  (-6 <= arg_x c <= 6 /\ -6 <= arg_y c <= 6) /\
  0 < arg_L1 c * arg_L2 c /\
  exists r, solve c = Return r.
Proof.
  unfold solver_calls. intros Hin. apply in_map_iff in Hin.
  destruct Hin as (w & <- & Hin).
  assert (Hw : well_ranged w).
  { pose proof (redraws_well_ranged evs init_ui init_ui_well_ranged) as Hall.
    rewrite Forall_forall in Hall.
    destruct Hin as [<- | Hin]; [apply init_ui_well_ranged | now apply Hall]. }
  destruct Hw as (Hx & Hy & H1 & H2).
  apply slider_reading_bounds in Hx, Hy, H1, H2.
  cbn [update_plot_call arg_x arg_y arg_L1 arg_L2].
  assert (Hpos : 0 < slider_reading (slider_L1 w) * slider_reading (slider_L2 w))
    by nra.
  split; [lra|]. split; [lra|]. split; [assumption|].
  unfold solve. cbn [arg_x arg_y arg_L1 arg_L2].
  apply inverse_kinematics_returns. now apply Rgt_not_eq.
Qed.

Lemma gui_calls_are_in_range_witness :
  let e := {| target := SL1; requested := 0 |} in
  let c := update_plot_call (fst (handle e init_ui)) in
  In c (solver_calls [e]) /\
  arg_L1 c = 1 / 100 /\
  0 < arg_L1 c * arg_L2 c /\
  exists r, solve c = Return r.
Proof.
  intros e c.
  assert (Hin : In c (solver_calls [e])).
  { unfold solver_calls. apply in_map. right. left. reflexivity. }
  split; [exact Hin|]. split; [reflexivity|].
  apply (gui_calls_are_in_range [e] c Hin).
Defined.

(** ** The offset term *)


(** ** The worked example [x = 3, y = 0, L1 = L2 = 2] *)









(** ** The folded-back arm [x = y = 0, L1 = L2 = 2] *)

(** In exact arithmetic [sin PI = 0], both arctangents of the shoulder
    angle are taken at the origin, and the result is [(0, 180)].  The
    program does not compute this: see [folded_arm_binary64] below. *)
Lemma folded_arm_exact :
  inverse_kinematics 0 0 2 2 = Return (Some (Num 0), Some (Num 180)).
Proof.
  assert (HDv : D_value 0 0 2 2 = -1) by (unfold D_value, D_num, D_den; field).
  assert (Hden : D_den 2 2 <> 0) by (unfold D_den; lra).
  assert (HD : Rabs (D_value 0 0 2 2) <= 1).
  { rewrite HDv. apply Rabs_le_iff. lra. }
  rewrite (inverse_kinematics_angles 0 0 2 2 Hden HD), HDv.
  pose proof PI_RGT_0 as Hpi.
  assert (H2 : elbow_angle (-1) = PI).
  { unfold elbow_angle. replace (1 - (-1) ^ 2) with 0 by ring. rewrite sqrt_0.
    unfold arctan2.
    destruct (Rlt_dec 0 (-1)); [lra|]. destruct (Rlt_dec (-1) 0); [|lra].
    destruct (Rle_dec 0 0); [|lra].
    replace (0 / -1) with 0 by field. rewrite atan_0. ring. }
  assert (H00 : arctan2 0 0 = 0).
  { unfold arctan2. destruct (Rlt_dec 0 0); [lra | reflexivity]. }
  assert (H1 : shoulder_angle 0 0 2 2 (-1) = 0).
  { unfold shoulder_angle. rewrite H2, sin_PI, cos_PI.
    replace (2 * 0) with 0 by ring. replace (2 + 2 * -1) with 0 by ring.
    rewrite H00. ring. }
  rewrite H1, H2. unfold degrees.
  repeat f_equal; field; lra.
Qed.

Lemma table_conforming : Binary64.conforming Binary64.table.
Proof.
  split.
  - intros x Hx. cbn. now rewrite Hx.
  - reflexivity.
  - intros y Hy. cbn.
    replace (0 <? 0)%float with false by reflexivity. now rewrite Hy.
  - reflexivity.
  - reflexivity.
Qed.

(** C5, amended to what the program computes.  On binary64 numbers [D = -1]
    exactly and [theta2 = 180], but [theta1 = -90]: the elbow angle is
    [np.pi], whose sine is [1.22e-16] and not zero, while
    [2 + 2 * cos np.pi] is exactly zero; the offset term is
    [arctan2 2.45e-16 0.0 = pi/2], and only the bearing term is taken at
    the origin. *)
Theorem folded_arm_binary64 (m : Binary64.libm) :
  Binary64.conforming m ->
  Binary64.py_div (Binary64.D_num 0 0 2 2) (Binary64.D_den 2 2)
    = Return (-1)%float /\
  Binary64.arctan2 m 0 0 = 0%float /\
  Binary64.arctan2 m (2 * Binary64.sin m Binary64.pi)
                     (2 + 2 * Binary64.cos m Binary64.pi)
    = (Binary64.pi / 2)%float /\
  Binary64.inverse_kinematics m 0 0 2 2
    = Return (Some (-90)%float, Some 180%float).
Proof.
  intros [Hneg Hzero Hpos Hsin Hcos].
  assert (Hoff : Binary64.arctan2 m (2 * Binary64.sin m Binary64.pi)
                   (2 + 2 * Binary64.cos m Binary64.pi)
                 = (Binary64.pi / 2)%float).
  { rewrite Hsin, Hcos.
    replace (2 + 2 * (-1))%float with 0%float by reflexivity.
    now apply Hpos. }
  split; [reflexivity|]. split; [assumption|]. split; [assumption|].
  unfold Binary64.inverse_kinematics.
  replace (Binary64.py_div _ _) with (Return (-1)%float) by reflexivity.
  cbn [bind].
  replace (1 <? abs (-1))%float with false by reflexivity.
  replace (PrimFloat.sqrt (1 - Binary64.square (-1)))%float with 0%float
    by reflexivity.
  rewrite (Hneg (-1)%float) by reflexivity.
  rewrite Hoff, Hzero.
  reflexivity.
Qed.

Lemma folded_arm_binary64_witness :
  Binary64.inverse_kinematics Binary64.table 0 0 2 2
  = Return (Some (-90)%float, Some 180%float).
Proof.
  apply (folded_arm_binary64 Binary64.table table_conforming).
Defined.

(** C5 as stated fails: on binary64 numbers the call does not return
    [theta1 = 0] together with [theta2 = 180]. *)
Lemma folded_arm_theta1_is_not_zero :
  ~ (forall m : Binary64.libm,
        Binary64.conforming m ->
        Binary64.inverse_kinematics m 0 0 2 2
        = Return (Some 0%float, Some 180%float)).
Proof.
  intros H. specialize (H Binary64.table table_conforming).
  apply (f_equal (fun r =>
           match r with
           | Return (Some t, _) => (t <? 0)%float
           | _ => false
           end)) in H.
  vm_compute in H. discriminate.
Qed.

(** ** The arm stretched out, on binary64 numbers *)

Lemma stretched_out_readings :
  Prim2SF (Binary64.slider_reading (slider_x stretched_out))
    = S754_finite false 5404319552844595 (-53) /\
  Prim2SF (Binary64.slider_reading (slider_y stretched_out))
    = S754_zero false /\
  Prim2SF (Binary64.slider_reading (slider_L1 stretched_out))
    = S754_finite false 5404319552844595 (-54) /\
  Prim2SF (Binary64.slider_reading (slider_L2 stretched_out))
    = S754_finite false 5404319552844595 (-54).
Proof.
  repeat split; vm_compute; reflexivity.
Qed.

Lemma powerRZ_2_m53 : powerRZ 2 (-53) = 2 * powerRZ 2 (-54).
Proof.
  replace (-53)%Z with (1 + -54)%Z by reflexivity.
  rewrite powerRZ_add by lra. now rewrite powerRZ_1.
Qed.

(** Rounding on the outer circle.  The sliders at [x = 0.60],
    [y = 0.00], [L1 = L2 = 0.30] give four binary64 numbers with
    [x = L1 + L2] exactly and [y = 0]: the target lies on the outer circle
    and the solver of exact arithmetic returns angles.  Evaluated on
    binary64 numbers the quotient is [1 + 2^-52] and the solver returns
    [(None, None)].  The real-number model does not see this: within one
    unit in the last place of the two circles the guard can fall either
    way. *)
Lemma stretched_arm_is_refused :
  exists X L : R,
    Binary64.real_value (Binary64.slider_reading (slider_x stretched_out)) = Some X /\
    Binary64.real_value (Binary64.slider_reading (slider_y stretched_out)) = Some 0 /\
    Binary64.real_value (Binary64.slider_reading (slider_L1 stretched_out)) = Some L /\
    Binary64.real_value (Binary64.slider_reading (slider_L2 stretched_out)) = Some L /\
    0 < L /\ X = L + L /\
    Rabs (L - L) <= sqrt (X ^ 2 + 0 ^ 2) <= L + L /\
    (exists theta1 theta2,
        inverse_kinematics X 0 L L = Return (Some theta1, Some theta2)) /\
    forall m : Binary64.libm,
      Binary64.py_div
        (Binary64.D_num (Binary64.slider_reading (slider_x stretched_out))
                        (Binary64.slider_reading (slider_y stretched_out))
                        (Binary64.slider_reading (slider_L1 stretched_out))
                        (Binary64.slider_reading (slider_L2 stretched_out)))
        (Binary64.D_den (Binary64.slider_reading (slider_L1 stretched_out))
                        (Binary64.slider_reading (slider_L2 stretched_out)))
        = Return 0x1.0000000000001p+0%float /\
      Binary64.solve m stretched_out = Return (None, None).
Proof.
  destruct stretched_out_readings as (Ex & Ey & E1 & E2).
  exists (IZR 5404319552844595 * powerRZ 2 (-53)),
         (IZR 5404319552844595 * powerRZ 2 (-54)).
  set (L := IZR 5404319552844595 * powerRZ 2 (-54)).
  assert (HX : IZR 5404319552844595 * powerRZ 2 (-53) = L + L)
    by (unfold L; rewrite powerRZ_2_m53; ring).
  assert (HL : 0 < L).
  { unfold L. apply Rmult_lt_0_compat; [lra | apply powerRZ_lt; lra]. }
  unfold Binary64.real_value. rewrite Ex, Ey, E1, E2. rewrite HX.
  assert (Hreach : Rabs (L - L) <= sqrt ((L + L) ^ 2 + 0 ^ 2) <= L + L).
  { replace ((L + L) ^ 2 + 0 ^ 2) with ((L + L) ^ 2) by ring.
    rewrite sqrt_pow2 by lra.
    replace (L - L) with 0 by ring. rewrite Rabs_R0. lra. }
  repeat (split; [reflexivity || assumption|]).
  split.
  - assert (HD : Rabs (D_value (L + L) 0 L L) <= 1)
      by (apply reachable_iff; assumption).
    assert (Hden : D_den L L <> 0) by (unfold D_den; nra).
    rewrite (inverse_kinematics_angles _ _ _ _ Hden HD). eauto.
  - intros m. split; vm_compute; reflexivity.
Qed.

(** * Binary64 arithmetic

    What the statements about every call need of IEEE arithmetic, from the
    specification of the primitive operations ([SpecFloat]): how a product,
    a difference or a square root is rounded. *)

Section Rounding.

Local Open Scope Z_scope.

(** ** Digits and shifts *)

Lemma fexp_eq (e : Z) : fexp prec emax e = Z.max (e - 53) (-1074).
Proof. reflexivity. Qed.

Lemma digits2_pos_size (p : positive) : digits2_pos p = Pos.size p.
Proof. induction p; cbn; congruence. Qed.

Lemma Zdigits2_bounds (p : positive) :
  2 ^ (Zpos (digits2_pos p) - 1) <= Zpos p < 2 ^ Zpos (digits2_pos p).
Proof.
  rewrite digits2_pos_size.
  pose proof (Pos.size_gt p) as Hgt. pose proof (Pos.size_le p) as Hle.
  apply Pos2Z.pos_lt_pos in Hgt. apply Pos2Z.pos_le_pos in Hle.
  rewrite Pos2Z.inj_pow in Hgt, Hle.
  replace (Zpos (Pos.size p)) with (Z.succ (Zpos (Pos.size p) - 1)) in Hle at 1 by lia.
  rewrite Z.pow_succ_r in Hle by lia.
  change (Zpos p~0) with (2 * Zpos p) in Hle. lia.
Qed.

Lemma iter_pos_nat (A : Type) (f : A -> A) (p : positive) (x : A) :
  SpecFloat.iter_pos f p x = Nat.iter (Pos.to_nat p) f x.
Proof.
  revert x. induction p as [p IH | p IH |]; intros x; cbn [SpecFloat.iter_pos].
  - rewrite !IH, Pos2Nat.inj_xI. cbn [Nat.iter].
    rewrite <- Nat.iter_succ_r, <- Nat.iter_add. f_equal. lia.
  - rewrite !IH, Pos2Nat.inj_xO, <- Nat.iter_add. f_equal. lia.
  - reflexivity.
Qed.

Lemma shr_1_m (r : shr_record) : 0 <= shr_m r -> shr_m (shr_1 r) = shr_m r / 2.
Proof.
  destruct r as [m r s]. cbn [shr_m]. intros Hm.
  destruct m as [| [p | p |] | p]; cbn; try reflexivity; try lia.
  - rewrite Pos2Z.inj_xI. apply Z.div_unique with (r := 1); lia.
  - rewrite Pos2Z.inj_xO. apply Z.div_unique with (r := 0); lia.
Qed.

Lemma shr_iter_m (n : nat) (r : shr_record) :
  0 <= shr_m r ->
  shr_m (Nat.iter n shr_1 r) = shr_m r / 2 ^ Z.of_nat n.
Proof.
  intros Hm. induction n as [| n IH].
  - cbn. now rewrite Z.div_1_r.
  - rewrite Nat.iter_succ, shr_1_m.
    + rewrite IH, Nat2Z.inj_succ, Z.pow_succ_r by lia.
      rewrite Z.div_div by lia. f_equal. lia.
    + rewrite IH. apply Z.div_pos; lia.
Qed.

(** The mantissa and the exponent [shr_fexp] leaves. *)
Lemma shr_fexp_spec (m e : Z) (l : location) :
  0 <= m ->
  let e' := Z.max e (fexp prec emax (Zdigits2 m + e)) in
  shr_m (fst (shr_fexp prec emax m e l)) = m / 2 ^ (e' - e) /\
  snd (shr_fexp prec emax m e l) = e'.
Proof.
  intros Hm e'. unfold shr_fexp, shr.
  assert (Hr : shr_m (shr_record_of_loc m l) = m) by (destruct l as [| []]; reflexivity).
  destruct (fexp prec emax (Zdigits2 m + e) - e) as [| n | n] eqn:En; cbn [fst snd].
  - replace (e' - e) with 0 by lia. rewrite Hr, Z.div_1_r. split; [reflexivity | lia].
  - rewrite iter_pos_nat, shr_iter_m by lia.
    rewrite Hr, positive_nat_Z. replace (e' - e) with (Zpos n) by lia. split; [reflexivity | lia].
  - replace (e' - e) with 0 by lia. rewrite Hr, Z.div_1_r. split; [reflexivity | lia].
Qed.

Lemma round_nearest_even_bounds (q : Z) (l : location) :
  q <= round_nearest_even q l <= q + 1.
Proof.
  destruct l as [| []]; cbn; try lia. destruct (Z.even q); lia.
Qed.

(** What [binary_round_aux] answers on a mantissa that is not negative. *)
Lemma binary_round_aux_spec (sx : bool) (mx ex : Z) (lx : location) :
  0 <= mx ->
  exists q1 q2 e1 e2 : Z,
    e1 = Z.max ex (fexp prec emax (Zdigits2 mx + ex)) /\
    mx / 2 ^ (e1 - ex) <= q1 <= mx / 2 ^ (e1 - ex) + 1 /\
    e2 = Z.max e1 (fexp prec emax (Zdigits2 q1 + e1)) /\
    q2 = q1 / 2 ^ (e2 - e1) /\
    binary_round_aux prec emax sx mx ex lx =
      match q2 with
      | Z0 => S754_zero sx
      | Zpos m => if e2 <=? 971 then S754_finite sx m e2 else S754_infinity sx
      | Zneg _ => S754_nan
      end.
Proof.
  intros Hm. unfold binary_round_aux.
  destruct (shr_fexp_spec mx ex lx Hm) as [Hq He].
  destruct (shr_fexp prec emax mx ex lx) as [mrs' e'] eqn:E1. cbn [fst snd] in Hq, He.
  rewrite <- He in Hq.
  set (q1 := round_nearest_even (shr_m mrs') (loc_of_shr_record mrs')).
  pose proof (round_nearest_even_bounds (shr_m mrs') (loc_of_shr_record mrs')) as Hq1.
  fold q1 in Hq1.
  assert (H1 : 0 <= q1).
  { rewrite Hq in Hq1.
    assert (0 < 2 ^ (e' - ex)) by (apply Z.pow_pos_nonneg; lia).
    assert (0 <= mx / 2 ^ (e' - ex)) by (apply Z.div_pos; lia). lia. }
  destruct (shr_fexp_spec q1 e' loc_Exact H1) as [Hq2 He2].
  destruct (shr_fexp prec emax q1 e' loc_Exact) as [mrs'' e''] eqn:E2. cbn [fst snd] in Hq2, He2.
  rewrite <- He2 in Hq2.
  exists q1, (shr_m mrs''), e', e''.
  rewrite <- Hq.
  split; [exact He|]. split; [exact Hq1|]. split; [exact He2|].
  split; [exact Hq2|]. reflexivity.
Qed.

Lemma pow2_pos (k : Z) : 0 <= k -> 0 < 2 ^ k.
Proof. intros. apply Z.pow_pos_nonneg; lia. Qed.

Lemma pow2_le (a b : Z) : 0 <= a <= b -> 2 ^ a <= 2 ^ b.
Proof. intros. apply Z.pow_le_mono_r; lia. Qed.

Lemma pow2_split (a b : Z) : 0 <= a -> 0 <= b -> 2 ^ (a + b) = 2 ^ a * 2 ^ b.
Proof. intros. apply Z.pow_add_r; lia. Qed.

(** A positive number below [2 ^ k] has at most [k] digits. *)
Lemma Zdigits2_le (x k : Z) : 0 <= x < 2 ^ k -> 0 <= k -> 0 <= Zdigits2 x <= k.
Proof.
  intros [H0 Hk] Hk0. destruct x as [| p | p]; cbn [Zdigits2]; try lia.
  pose proof (Zdigits2_bounds p) as [Hlo _].
  split; [lia|].
  destruct (Z_le_gt_dec (Zpos (digits2_pos p)) k) as [|Hgt]; [assumption|].
  assert (2 ^ k <= 2 ^ (Zpos (digits2_pos p) - 1)) by (apply pow2_le; lia).
  lia.
Qed.

Lemma compare_cont_Eq (p q : positive) : Pos.compare_cont Eq p q = Pos.compare p q.
Proof. reflexivity. Qed.

(** ** Valid representations *)

Lemma Prim2SF_finite (v : float) (s : bool) (m : positive) (e : Z) :
  Prim2SF v = S754_finite s m e ->
  -1074 <= e <= 971 /\ Zpos m < 2 ^ 53 /\
  (e = -1074 \/ 2 ^ 52 <= Zpos m).
Proof.
  intros E. pose proof (Prim2SF_valid v) as Hv. rewrite E in Hv.
  cbn [SpecFloat.valid_binary] in Hv. unfold bounded, canonical_mantissa in Hv.
  apply andb_prop in Hv. destruct Hv as [Hc Hb].
  apply Z.eqb_eq in Hc. apply Z.leb_le in Hb. rewrite fexp_eq in Hc.
  change (emax - prec) with 971 in Hb.
  pose proof (Zdigits2_bounds m) as [Hlo Hhi].
  set (d := Zpos (digits2_pos m)) in *.
  assert (Hd : 0 < d) by (unfold d; lia).
  split; [lia|]. split.
  - assert (2 ^ d <= 2 ^ 53) by (apply pow2_le; lia). lia.
  - destruct (Z.eq_dec e (-1074)) as [|Hne]; [now left | right].
    replace (d - 1) with 52 in Hlo by lia. assumption.
Qed.

Lemma is_nan_spec (v : float) : is_nan v = true <-> Prim2SF v = S754_nan.
Proof.
  unfold is_nan. rewrite FloatAxioms.eqb_spec. unfold SFeqb.
  destruct (Prim2SF v) as [s | s | | s m e] eqn:E; cbn.
  - split; discriminate.
  - destruct s; split; discriminate.
  - split; reflexivity.
  - rewrite Z.compare_refl, Pos.compare_cont_refl. destruct s; split; discriminate.
Qed.

Lemma is_nan_false (v : float) : is_nan v = false <-> Prim2SF v <> S754_nan.
Proof.
  rewrite <- is_nan_spec. destruct (is_nan v); split; congruence.
Qed.

(** The rounded mantissa has at most 53 digits, or it is [2 ^ 53] and the
    exponent goes up by one. *)
Lemma binary_round_aux_fits (sx : bool) (mx ex : Z) (lx : location) :
  0 <= mx ->
  exists q1 e1 : Z,
    e1 = Z.max ex (fexp prec emax (Zdigits2 mx + ex)) /\
    mx / 2 ^ (e1 - ex) <= q1 <= mx / 2 ^ (e1 - ex) + 1 /\
    0 <= q1 <= 2 ^ 53 /\
    binary_round_aux prec emax sx mx ex lx =
      match (if q1 =? 2 ^ 53 then (2 ^ 52, e1 + 1) else (q1, e1)) with
      | (Zpos m, e) => if e <=? 971 then S754_finite sx m e else S754_infinity sx
      | (_, _) => S754_zero sx
      end.
Proof.
  intros Hm.
  destruct (binary_round_aux_spec sx mx ex lx Hm)
    as (q1 & q2 & e1 & e2 & He1 & Hq1 & He2 & Hq2 & ->).
  exists q1, e1. rewrite fexp_eq in He1, He2.
  assert (Hp : 0 < 2 ^ (e1 - ex)) by (apply pow2_pos; lia).
  assert (Hq0 : 0 <= mx / 2 ^ (e1 - ex)) by (apply Z.div_pos; lia).
  assert (Hq : mx / 2 ^ (e1 - ex) < 2 ^ 53).
  { apply Z.div_lt_upper_bound; [assumption|].
    destruct mx as [| p | p]; [nia | | lia].
    pose proof (Zdigits2_bounds p) as [_ Hhi]. cbn [Zdigits2] in He1.
    rewrite <- pow2_split by lia.
    assert (2 ^ Zpos (digits2_pos p) <= 2 ^ (e1 - ex + 53)) by (apply pow2_le; lia).
    lia. }
  split; [assumption|]. split; [assumption|]. split; [lia|].
  destruct (Z.eqb_spec q1 (2 ^ 53)) as [-> | Hne].
  - assert (Hd : Zdigits2 (2 ^ 53) = 54) by reflexivity.
    rewrite Hd in He2. replace e2 with (e1 + 1) in * by lia.
    replace (e1 + 1 - e1) with 1 in Hq2 by lia. subst q2. reflexivity.
  - assert (Hd : 0 <= Zdigits2 q1 <= 53) by (apply Zdigits2_le; lia).
    replace e2 with e1 in * by lia.
    replace (e1 - e1) with 0 in Hq2 by lia. rewrite Z.div_1_r in Hq2. subst q2.
    destruct q1; try reflexivity. lia.
Qed.

Lemma binary_round_aux_plus (mx ex : Z) (lx : location) :
  0 <= mx -> SFplus (binary_round_aux prec emax false mx ex lx).
Proof.
  intros Hm.
  destruct (binary_round_aux_fits false mx ex lx Hm) as (q1 & e1 & _ & _ & _ & ->).
  destruct (q1 =? 2 ^ 53).
  - cbn. now destruct (e1 + 1 <=? 971).
  - destruct q1; cbn; try exact I. now destruct (e1 <=? 971).
Qed.

Lemma shl_align_fst (mx : positive) (ex ex' : Z) :
  Zpos (fst (shl_align mx ex ex')) = Zpos mx * 2 ^ (Z.max 0 (ex - ex')) /\
  snd (shl_align mx ex ex') = Z.min ex ex'.
Proof.
  unfold shl_align. destruct (ex' - ex) as [| d | d] eqn:Ed; cbn [fst snd].
  - replace (Z.max 0 (ex - ex')) with 0 by lia. split; lia.
  - replace (Z.max 0 (ex - ex')) with 0 by lia. split; lia.
  - replace (Z.max 0 (ex - ex')) with (Zpos d) by lia. split; [|lia].
    clear Ed. induction d as [| d IH] using Pos.peano_ind.
    + cbn. lia.
    + rewrite Pos.iter_succ, Pos2Z.inj_succ, Z.pow_succ_r by lia.
      rewrite Pos2Z.inj_xO, IH. lia.
Qed.

(** ** Comparisons on representations *)

Lemma SFleb_finite (m M : positive) (e E : Z) :
  SFleb (S754_finite false m e) (S754_finite false M E) = true <->
  e < E \/ (e = E /\ Zpos m <= Zpos M).
Proof.
  unfold SFleb, SFcompare. rewrite compare_cont_Eq.
  destruct (Z.compare_spec e E) as [-> | Hlt | Hgt].
  - destruct (Pos.compare_spec m M) as [-> | H | H].
    + split; [intros _; right; split; lia | reflexivity].
    + apply Pos2Z.pos_lt_pos in H. split; [intros _; right; split; lia | reflexivity].
    + apply Pos2Z.pos_lt_pos in H. split; [discriminate | lia].
  - split; [intros _; now left | reflexivity].
  - split; [discriminate | lia].
Qed.

Lemma SFltb_finite (m M : positive) (e E : Z) :
  SFltb (S754_finite false m e) (S754_finite false M E) = true <->
  e < E \/ (e = E /\ Zpos m < Zpos M).
Proof.
  unfold SFltb, SFcompare. rewrite compare_cont_Eq.
  destruct (Z.compare_spec e E) as [-> | Hlt | Hgt].
  - destruct (Pos.compare_spec m M) as [-> | H | H].
    + split; [discriminate | lia].
    + apply Pos2Z.pos_lt_pos in H. split; [intros _; right; split; lia | reflexivity].
    + apply Pos2Z.pos_lt_pos in H. split; [discriminate | lia].
  - split; [intros _; now left | reflexivity].
  - split; [discriminate | lia].
Qed.

End Rounding.

Section Binary64Facts.

Local Open Scope Z_scope.
Local Open Scope float_scope.

Lemma Prim2SF_0 : Prim2SF 0 = S754_zero false.
Proof. reflexivity. Qed.

Lemma Prim2SF_1 : Prim2SF 1 = S754_finite false 4503599627370496 (-52).
Proof. reflexivity. Qed.

(** *** The correctly rounded square on the unit interval *)

Lemma square_unit (a : float) :
  (0 <? a) = true -> (a <? 1) = true ->
  (0 <=? a * a) = true /\ (a * a <=? 1) = true.
Proof.
  rewrite !FloatAxioms.ltb_spec, !FloatAxioms.leb_spec, mul_spec, Prim2SF_0, Prim2SF_1.
  intros H0 H1.
  destruct (Prim2SF a) as [s | s | | s m e] eqn:E;
    try (destruct s; discriminate); try discriminate.
  destruct s; [discriminate|]. clear H0.
  destruct (Prim2SF_finite a _ _ _ E) as (He & Hm & Hn).
  assert (He' : (e <= -53)%Z).
  { unfold SFltb, SFcompare in H1.
    destruct (Z.compare_spec e (-52)) as [-> | Hlt | Hgt]; try discriminate; [|lia].
    rewrite compare_cont_Eq in H1.
    destruct (Pos.compare_spec m 4503599627370496) as [| Hlt |]; try discriminate.
    apply Pos2Z.pos_lt_pos in Hlt. change (2 ^ 52)%Z with 4503599627370496%Z in Hn. lia. }
  clear H1.
  unfold SF64mul, SFmul. cbn [xorb].
  destruct (binary_round_aux_spec false (Zpos (m * m)) (e + e) loc_Exact)
    as (q1 & q2 & e1 & e2 & He1 & Hq1 & He2 & Hq2 & ->); [lia|].
  rewrite fexp_eq in He1, He2.
  (* digits of the product *)
  assert (Hmm : (Z.pos (m * m) < 2 ^ 106)%Z).
  { rewrite Pos2Z.inj_mul. change (2 ^ 106)%Z with (2 ^ 53 * 2 ^ 53)%Z. nia. }
  assert (Hd : (0 <= Zdigits2 (Z.pos (m * m)) <= 106)%Z)
    by (apply Zdigits2_le; lia).
  assert (He1' : (e + e <= e1 <= -53)%Z) by lia.
  (* the product is below one *)
  assert (Hone : (Z.pos (m * m) < 2 ^ (e1 - (e + e)) * 2 ^ (- e1))%Z).
  { rewrite <- pow2_split by lia. replace (e1 - (e + e) + - e1)%Z with ((-e) + (-e))%Z by lia.
    rewrite pow2_split by lia. rewrite Pos2Z.inj_mul.
    assert (2 ^ 53 <= 2 ^ (- e))%Z by (apply pow2_le; lia). nia. }
  assert (Hq : (Z.pos (m * m) / 2 ^ (e1 - (e + e)) < 2 ^ (- e1))%Z).
  { apply Z.div_lt_upper_bound; [apply pow2_pos; lia | assumption]. }
  assert (Hq0 : (0 <= Z.pos (m * m) / 2 ^ (e1 - (e + e)))%Z).
  { apply Z.div_pos; [lia | apply pow2_pos; lia]. }
  assert (Hq1' : (0 <= q1 <= 2 ^ (- e1))%Z) by lia.
  assert (Hd1 : (0 <= Zdigits2 q1 <= - e1 + 1)%Z).
  { apply Zdigits2_le; [|lia].
    replace (- e1 + 1)%Z with (Z.succ (- e1)) by lia. rewrite Z.pow_succ_r by lia.
    assert (0 < 2 ^ (- e1))%Z by (apply pow2_pos; lia). lia. }
  assert (He2' : (e1 <= e2 <= -52)%Z) by lia.
  assert (Hq2' : (0 <= q2 <= 2 ^ (- e2))%Z).
  { subst q2. split; [apply Z.div_pos; [lia | apply pow2_pos; lia]|].
    apply Z.div_le_upper_bound; [apply pow2_pos; lia|].
    rewrite <- pow2_split by lia. replace (e2 - e1 + - e2)%Z with (- e1)%Z by lia. lia. }
  destruct q2 as [| mq | mq]; [split; reflexivity | | lia].
  destruct (Z.leb_spec e2 971) as [_ | Hbig]; [|lia].
  split; [reflexivity|].
  unfold SFleb, SFcompare.
  destruct (Z.compare_spec e2 (-52)) as [-> | Hlt | Hgt]; [| reflexivity | lia].
  rewrite compare_cont_Eq.
  change (2 ^ (- -52))%Z with 4503599627370496%Z in Hq2'.
  destruct (Pos.compare_spec mq 4503599627370496) as [| Hlt | Hgt]; try reflexivity.
  apply Pos2Z.pos_lt_pos in Hgt. lia.
Qed.

(** ** Sign classes of binary64 numbers *)

Lemma plus_spec (v : float) : plus_signed v = true <-> SFplus (Prim2SF v).
Proof.
  unfold plus_signed. rewrite classify_spec. unfold SF64classify, SFclassify.
  destruct (Prim2SF v) as [[|] | [|] | | [|] m e]; cbn [SFplus];
    try (split; [discriminate | contradiction]);
    try (split; [intros _; exact I | reflexivity]).
  - destruct (Z.pos (digits2_pos m) =? prec)%Z; split; (discriminate || contradiction).
  - destruct (Z.pos (digits2_pos m) =? prec)%Z; split; intros; (exact I || reflexivity).
Qed.

Lemma plus_leb (v : float) : plus_signed v = true -> (0 <=? v) = true.
Proof.
  rewrite plus_spec, FloatAxioms.leb_spec, Prim2SF_0.
  destruct (Prim2SF v) as [[|] | [|] | | [|] m e]; cbn [SFplus]; try contradiction;
    reflexivity.
Qed.

Lemma plus_not_nan (v : float) : plus_signed v = true -> is_nan v = false.
Proof.
  rewrite plus_spec, is_nan_false.
  destruct (Prim2SF v) as [[|] | [|] | | [|] m e]; cbn [SFplus]; try contradiction;
    discriminate.
Qed.

(** *** [1 - d] for [d] in the unit interval *)

Lemma one_minus_unit (d : float) :
  (0 <=? d) = true -> (d <=? 1) = true -> plus_signed (1 - d) = true.
Proof.
  rewrite plus_spec, !FloatAxioms.leb_spec, sub_spec, Prim2SF_0, Prim2SF_1.
  intros H0 H1.
  destruct (Prim2SF d) as [s | s | | s m e] eqn:E.
  - exact I.
  - destruct s; discriminate.
  - discriminate.
  - destruct s; [discriminate|]. clear H0.
    destruct (Prim2SF_finite d _ _ _ E) as (He & Hm & Hn).
    apply SFleb_finite in H1.
    unfold SF64sub, SFsub.
    destruct (shl_align_fst 4503599627370496 (-52) (Z.min (-52) e)) as [Ha _].
    destruct (shl_align_fst m e (Z.min (-52) e)) as [Hb _].
    cbn [cond_Zopp]. rewrite Ha, Hb.
    replace (Z.min (-52) e) with e by lia.
    replace (Z.max 0 (e - e)) with 0%Z by lia.
    replace (Z.max 0 (-52 - e)) with (-52 - e)%Z by lia.
    assert (Hd : (0 <= 4503599627370496 * 2 ^ (-52 - e) - Z.pos m * 2 ^ 0)%Z).
    { change (2 ^ 0)%Z with 1%Z.
      destruct H1 as [Hlt | [-> Hle]].
      - assert (2 ^ 1 <= 2 ^ (-52 - e))%Z by (apply pow2_le; lia).
        change (2 ^ 53)%Z with 9007199254740992%Z in Hm. change (2 ^ 1)%Z with 2%Z in *.
        lia.
      - change (2 ^ (-52 - -52))%Z with 1%Z. lia. }
    destruct (4503599627370496 * 2 ^ (-52 - e) - Z.pos m * 2 ^ 0)%Z as [| p | p];
      [exact I | | lia].
    unfold binary_normalize, binary_round.
    destruct (shl_align p e (fexp prec emax (Z.pos (digits2_pos p) + e))) as [mz ez].
    apply binary_round_aux_plus. lia.
Qed.

(** *** The square root *)

Lemma sqrt_plus (w : float) : plus_signed w = true -> plus_signed (PrimFloat.sqrt w) = true.
Proof.
  rewrite !plus_spec, sqrt_spec. unfold SF64sqrt, SFsqrt.
  destruct (Prim2SF w) as [[|] | [|] | | [|] m e]; cbn [SFplus]; try contradiction;
    try (intros _; exact I).
  intros _.
  destruct (SFsqrt_core_binary prec emax (Z.pos m) e) as [[mz ez] lz] eqn:Ec.
  apply binary_round_aux_plus.
  unfold SFsqrt_core_binary in Ec.
  set (m' := match (e - 2 * Z.min (fexp prec emax (Z.div2 (Zdigits2 (Z.pos m) + e + 1))) (Z.div2 e))%Z with
             | Z0 => Z.pos m
             | Zpos _ => Z.shiftl (Z.pos m) (e - 2 * Z.min (fexp prec emax (Z.div2 (Zdigits2 (Z.pos m) + e + 1))) (Z.div2 e))
             | Zneg _ => 0%Z
             end) in Ec.
  assert (Hm' : (0 <= m')%Z).
  { unfold m'. destruct (e - 2 * Z.min _ _)%Z; try lia. apply Z.shiftl_nonneg. lia. }
  pose proof (Z.sqrtrem_spec m' Hm') as Hs.
  destruct (Z.sqrtrem m') as [q r]. injection Ec as <- _ _. lia.
Qed.

(** *** [np.degrees] on [[0, pi]] *)

Lemma Prim2SF_pi : Prim2SF Binary64.pi = S754_finite false 7074237752028440 (-51).
Proof. reflexivity. Qed.

Lemma Prim2SF_180 : Prim2SF 180 = S754_finite false 6333186975989760 (-45).
Proof. reflexivity. Qed.

Lemma Prim2SF_rad2deg :
  Prim2SF (180 / Binary64.pi) = S754_finite false 8063664102031864 (-47).
Proof. reflexivity. Qed.

Lemma degrees_range (t : float) :
  (0 <=? t) = true -> (t <=? Binary64.pi) = true ->
  (0 <=? Binary64.degrees t) = true /\ (Binary64.degrees t <=? 180) = true.
Proof.
  unfold Binary64.degrees.
  rewrite !FloatAxioms.leb_spec, mul_spec, Prim2SF_0, Prim2SF_pi, Prim2SF_180, Prim2SF_rad2deg.
  intros H0 H1.
  destruct (Prim2SF t) as [s | s | | s m e] eqn:E.
  - split; reflexivity.
  - destruct s; discriminate.
  - discriminate.
  - destruct s; [discriminate|]. clear H0.
    destruct (Prim2SF_finite t _ _ _ E) as (He & Hm & Hn).
    apply SFleb_finite in H1.
    unfold SF64mul, SFmul. cbn [xorb].
    destruct (binary_round_aux_fits false (Z.pos (m * 8063664102031864)) (e + -47) loc_Exact)
      as (q1 & e1 & He1 & Hq1 & Hq1' & ->); [lia|].
    rewrite fexp_eq in He1.
    assert (Hlt : (Z.pos (m * 8063664102031864) < 2 ^ 106)%Z).
    { rewrite Pos2Z.inj_mul. change (2 ^ 106)%Z with (2 ^ 53 * 2 ^ 53)%Z.
      change (2 ^ 53)%Z with 9007199254740992%Z in *. nia. }
    assert (Hd : (0 <= Zdigits2 (Z.pos (m * 8063664102031864)) <= 106)%Z)
      by (apply Zdigits2_le; lia).
    assert (Hcase : (e1 <= -46 \/ (e1 = -45 /\ q1 <= 6333186975989760))%Z).
    { destruct (Z_le_gt_dec e1 (-46)) as [|Hgt]; [now left | right].
      assert (e = -51 /\ e1 = -45)%Z as [-> ->] by lia.
      split; [reflexivity|].
      destruct H1 as [H1 | [_ H1]]; [lia|].
      change (-45 - (-51 + -47))%Z with 53%Z in Hq1.
      assert (Z.pos (m * 8063664102031864) / 2 ^ 53 < 6333186975989760)%Z.
      { apply Z.div_lt_upper_bound; [reflexivity|].
        rewrite Pos2Z.inj_mul. change (2 ^ 53)%Z with 9007199254740992%Z. lia. }
      lia. }
    destruct (Z.eqb_spec q1 (2 ^ 53)) as [-> | Hne].
    + change (2 ^ 52)%Z with 4503599627370496%Z. cbv iota.
      assert (e1 <= -46)%Z by (change (2 ^ 53)%Z with 9007199254740992%Z in Hcase; lia).
      destruct (Z.leb_spec (e1 + 1) 971) as [_ | Hbig]; [|lia].
      split; [reflexivity|]. apply SFleb_finite. lia.
    + destruct q1 as [| mq | mq]; [split; reflexivity | | lia].
      cbv iota.
      destruct (Z.leb_spec e1 971) as [_ | Hbig]; [|lia].
      split; [reflexivity|]. apply SFleb_finite. lia.
Qed.

(** ** Numbers, infinities and [nan] *)

Lemma binary_round_aux_notnan (sx : bool) (mx ex : Z) (lx : location) :
  (0 <= mx)%Z -> binary_round_aux prec emax sx mx ex lx <> S754_nan.
Proof.
  intros Hm.
  destruct (binary_round_aux_fits sx mx ex lx Hm) as (q1 & e1 & _ & _ & _ & ->).
  destruct (q1 =? 2 ^ 53)%Z.
  - cbn. destruct (e1 + 1 <=? 971)%Z; discriminate.
  - destruct q1; cbn; try discriminate. destruct (e1 <=? 971)%Z; discriminate.
Qed.

Lemma binary_normalize_notnan (m e : Z) (s : bool) :
  binary_normalize prec emax m e s <> S754_nan.
Proof.
  unfold binary_normalize, binary_round. destruct m as [| p | p]; [discriminate | |].
  - destruct (shl_align p e _) as [mz ez]. apply binary_round_aux_notnan. lia.
  - destruct (shl_align p e _) as [mz ez]. apply binary_round_aux_notnan. lia.
Qed.

Lemma SFmul_num (a b : spec_float) :
  SFnum a -> SFnum b -> SF64mul a b <> S754_nan.
Proof.
  unfold SF64mul, SFmul.
  destruct a as [sa | sa | | sa ma ea]; cbn [SFnum]; try contradiction;
    destruct b as [sb | sb | | sb mb eb]; cbn [SFnum]; try contradiction;
    intros _ _; try discriminate.
  apply binary_round_aux_notnan. lia.
Qed.

(** Times a number that is not zero. *)
Lemma SFmul_finite_r (a : spec_float) (s : bool) (m : positive) (e : Z) :
  a <> S754_nan -> SF64mul a (S754_finite s m e) <> S754_nan.
Proof.
  unfold SF64mul, SFmul.
  destruct a as [sa | sa | | sa ma ea]; intros Ha; try discriminate; [congruence|].
  apply binary_round_aux_notnan. lia.
Qed.

Lemma SFadd_num (a b : spec_float) :
  SFnum a -> b <> S754_nan -> SF64add a b <> S754_nan.
Proof.
  unfold SF64add, SFadd.
  destruct a as [sa | sa | | sa ma ea]; cbn [SFnum]; try contradiction;
    destruct b as [sb | sb | | sb mb eb]; intros _ Hb; try discriminate; try congruence.
  - destruct sa, sb; discriminate.
  - apply binary_normalize_notnan.
Qed.

Lemma SFsub_num (a b : spec_float) :
  SFnum a -> SFnum b -> SF64sub a b <> S754_nan.
Proof.
  unfold SF64sub, SFsub.
  destruct a as [sa | sa | | sa ma ea]; cbn [SFnum]; try contradiction;
    destruct b as [sb | sb | | sb mb eb]; cbn [SFnum]; try contradiction;
    intros _ _; try discriminate.
  - destruct sa, sb; discriminate.
  - apply binary_normalize_notnan.
Qed.

Lemma Prim2SF_infinity : Prim2SF infinity = S754_infinity false.
Proof. reflexivity. Qed.

Lemma is_infinity_spec (v : float) :
  is_infinity v = true <-> exists s, Prim2SF v = S754_infinity s.
Proof.
  unfold is_infinity. rewrite FloatAxioms.eqb_spec, abs_spec, Prim2SF_infinity.
  destruct (Prim2SF v) as [s | s | | s m e]; cbn.
  - split; [discriminate | intros [? ?]; discriminate].
  - split; [eauto | reflexivity].
  - split; [discriminate | intros [? ?]; discriminate].
  - split; [discriminate | intros [? ?]; discriminate].
Qed.

Lemma is_finite_spec (v : float) : is_finite v = true <-> SFnum (Prim2SF v).
Proof.
  unfold is_finite. rewrite negb_true_iff, orb_false_iff.
  rewrite is_nan_false.
  destruct (is_infinity v) eqn:Ei.
  - apply is_infinity_spec in Ei. destruct Ei as [s ->]. cbn. split; [intros [_ ?]; discriminate | contradiction].
  - assert (Hn : ~ exists s, Prim2SF v = S754_infinity s).
    { intros H. apply is_infinity_spec in H. congruence. }
    destruct (Prim2SF v) as [s | s | | s m e]; cbn [SFnum].
    + split; [intros _; exact I | intros _; split; [discriminate | reflexivity]].
    + exfalso. apply Hn. eauto.
    + split; [intros [H _]; congruence | contradiction].
    + split; [intros _; exact I | intros _; split; [discriminate | reflexivity]].
Qed.

Lemma is_nan_eq (v : float) : is_nan v = true -> v = nan.
Proof.
  intros H. apply Prim2SF_inj. apply is_nan_spec in H. rewrite H. reflexivity.
Qed.

Lemma is_finite_not_nan (v : float) : is_finite v = true -> is_nan v = false.
Proof.
  rewrite is_finite_spec, is_nan_false. destruct (Prim2SF v); cbn; (contradiction || discriminate).
Qed.

(** *** [nan] in, [nan] out *)

Lemma nan_mul_l (b : float) : nan * b = nan.
Proof. apply Prim2SF_inj. rewrite mul_spec. reflexivity. Qed.

Lemma nan_mul_r (a : float) : a * nan = nan.
Proof.
  apply Prim2SF_inj. rewrite mul_spec. change (Prim2SF nan) with S754_nan.
  unfold SF64mul, SFmul. now destruct (Prim2SF a).
Qed.

Lemma nan_add_l (b : float) : nan + b = nan.
Proof. apply Prim2SF_inj. rewrite add_spec. reflexivity. Qed.

Lemma nan_add_r (a : float) : a + nan = nan.
Proof.
  apply Prim2SF_inj. rewrite add_spec. change (Prim2SF nan) with S754_nan.
  unfold SF64add, SFadd. now destruct (Prim2SF a).
Qed.

Lemma nan_sub_l (b : float) : nan - b = nan.
Proof. apply Prim2SF_inj. rewrite sub_spec. reflexivity. Qed.

Lemma nan_sub_r (a : float) : a - nan = nan.
Proof.
  apply Prim2SF_inj. rewrite sub_spec. change (Prim2SF nan) with S754_nan.
  unfold SF64sub, SFsub. now destruct (Prim2SF a).
Qed.

Lemma nan_div_l (b : float) : nan / b = nan.
Proof. apply Prim2SF_inj. rewrite div_spec. reflexivity. Qed.

Lemma nan_div_r (a : float) : a / nan = nan.
Proof.
  apply Prim2SF_inj. rewrite div_spec. change (Prim2SF nan) with S754_nan.
  unfold SF64div, SFdiv. now destruct (Prim2SF a).
Qed.

(** *** Numbers in, no [nan] out *)

Lemma mul_finite (a b : float) :
  is_finite a = true -> is_finite b = true -> is_nan (a * b) = false.
Proof.
  rewrite !is_finite_spec, is_nan_false, mul_spec. apply SFmul_num.
Qed.

Lemma add_finite (a b : float) :
  is_finite a = true -> is_nan b = false -> is_nan (a + b) = false.
Proof.
  rewrite is_finite_spec, !is_nan_false, add_spec. apply SFadd_num.
Qed.

Lemma sub_finite (a b : float) :
  is_finite a = true -> is_finite b = true -> is_nan (a - b) = false.
Proof.
  rewrite !is_finite_spec, is_nan_false, sub_spec. apply SFsub_num.
Qed.

Lemma degrees_number (t : float) :
  is_nan t = false -> is_nan (Binary64.degrees t) = false.
Proof.
  unfold Binary64.degrees. rewrite !is_nan_false, mul_spec, Prim2SF_rad2deg.
  apply SFmul_finite_r.
Qed.

Lemma degrees_nan : Binary64.degrees nan = nan.
Proof. reflexivity. Qed.

(** *** Bounded, hence a number *)

Lemma abs_leb_finite (v b : float) :
  is_finite b = true -> (abs v <=? b) = true -> is_finite v = true.
Proof.
  rewrite !is_finite_spec, FloatAxioms.leb_spec, abs_spec.
  destruct (Prim2SF v) as [s | s | | s m e]; cbn [SFnum SFabs]; try (intros; exact I).
  - destruct (Prim2SF b) as [sb | sb | | sb mb eb]; cbn [SFnum]; try contradiction;
      intros _; discriminate.
  - intros _. discriminate.
Qed.

Lemma leb_range_finite (v a b : float) :
  is_finite a = true -> is_finite b = true ->
  (a <=? v) = true -> (v <=? b) = true -> is_finite v = true.
Proof.
  rewrite !is_finite_spec, !FloatAxioms.leb_spec.
  destruct (Prim2SF v) as [s | s | | s m e]; cbn [SFnum]; try (intros; exact I).
  - destruct s.
    + destruct (Prim2SF a) as [sa | sa | | sa ma ea]; cbn [SFnum]; try contradiction;
        intros _ _ H; discriminate.
    + destruct (Prim2SF b) as [sb | sb | | sb mb eb]; cbn [SFnum]; try contradiction;
        intros _ _ _ H; discriminate.
  - intros _ _ H. destruct (Prim2SF a); discriminate.
Qed.

(** The guard's comparison is false on [nan] and on [[-1, 1]] only. *)
Lemma guard_false (D : float) :
  (1 <? abs D) = false -> is_nan D = true \/ (abs D <=? 1) = true.
Proof.
  rewrite FloatAxioms.ltb_spec, FloatAxioms.leb_spec, abs_spec, Prim2SF_1, is_nan_spec.
  destruct (Prim2SF D) as [s | s | | s m e]; cbn [SFabs].
  - intros _. right. reflexivity.
  - discriminate.
  - intros _. now left.
  - intros H. right.
    unfold SFltb, SFleb, SFcompare in *. rewrite compare_cont_Eq in *.
    rewrite Z.compare_antisym, Pos.compare_antisym.
    destruct (-52 ?= e)%Z; cbn [CompOpp] in *; try reflexivity; try discriminate.
    destruct (4503599627370496 ?= m)%positive; cbn [CompOpp]; try reflexivity; discriminate.
Qed.

End Binary64Facts.

(** * The solver on Python floats: every call *)

Section EveryCall.

Import Python.
Local Open Scope float_scope.

Lemma square_pow_sane (m : Binary64.libm) : pow_sane (correctly_rounded m).
Proof.
  intros a H0 H1. apply square_unit; assumption.
Qed.

Lemma coarse_sane : numpy_sane coarse.
Proof.
  split; cbn [Binary64.sin Binary64.cos Binary64.arctan2 coarse].
  - intros y x [H | H]; rewrite H; [reflexivity | now rewrite orb_true_r].
  - intros y x Hy Hx. rewrite Hy, Hx. cbn [orb].
    destruct (plus_signed y), (x <? 0); reflexivity.
  - intros y x Hy Hx. rewrite Hy, Hx, (plus_not_nan y Hy). cbn [orb].
    destruct (x <? 0); split; reflexivity.
  - reflexivity.
  - intros t Ht. rewrite Ht. reflexivity.
  - intros t Ht. rewrite Ht. reflexivity.
Qed.

(** ** The ways out of the solver *)

Lemma float_pow2_cases (p : platform) (v : float) :
  (overflows p v = true /\ float_pow2 p v = Raises OverflowError) \/
  (overflows p v = false /\ float_pow2 p v = Returns (squared p v)).
Proof.
  unfold overflows, squared, float_pow2.
  destruct (is_nan v); [now right|].
  destruct (is_infinity v); [now right|].
  destruct (v =? 0); [now right|].
  cbv zeta. destruct (abs v =? 1); [now right|].
  destruct (is_infinity (pow2 p (abs v))); [now left | now right].
Qed.

Lemma inverse_kinematics_eq (p : platform) (x y L1 L2 : float) :
  inverse_kinematics p x y L1 L2 =
  if some_square_overflows p x y L1 L2 then Raises OverflowError
  else if Binary64.D_den L1 L2 =? 0 then Raises ZeroDivisionError
  else
    let D := D_value p x y L1 L2 in
    if 1 <? abs D then Returns (None, None)
    else
      D2 <~ float_pow2 p D ;;
      let theta2 := elbow (numpy p) D2 D in
      Returns (Some (Binary64.degrees (shoulder (numpy p) x y L1 L2 theta2)),
               Some (Binary64.degrees theta2)).
Proof.
  unfold inverse_kinematics, some_square_overflows, D_value, D_num, float_div,
    Binary64.D_den.
  destruct (float_pow2_cases p x) as [[-> ->] | [-> ->]]; [reflexivity|].
  destruct (float_pow2_cases p y) as [[-> ->] | [-> ->]]; [reflexivity|].
  destruct (float_pow2_cases p L1) as [[-> ->] | [-> ->]]; [reflexivity|].
  destruct (float_pow2_cases p L2) as [[-> ->] | [-> ->]]; [reflexivity|].
  cbn [and_then orb].
  destruct (2 * L1 * L2 =? 0); reflexivity.
Qed.

(** *** The square on the success path *)

Lemma SFleb_not_eqb (a b : spec_float) :
  SFleb a b = true -> SFeqb a b = false -> SFltb a b = true.
Proof.
  unfold SFleb, SFeqb, SFltb. destruct (SFcompare a b) as [[]|]; congruence.
Qed.

Lemma abs_positive (v : float) :
  is_nan v = false -> (v =? 0) = false -> (0 <? abs v) = true.
Proof.
  rewrite is_nan_false, FloatAxioms.eqb_spec, FloatAxioms.ltb_spec, abs_spec, Prim2SF_0.
  destruct (Prim2SF v) as [s | s | | s m e]; cbn [SFabs]; intros Hn Hz;
    try reflexivity; try discriminate; congruence.
Qed.

Lemma float_pow2_nan (p : platform) (v : float) :
  is_nan v = true -> float_pow2 p v = Returns nan.
Proof.
  intros H. unfold float_pow2. rewrite H. now rewrite (is_nan_eq v H).
Qed.

Lemma float_pow2_unit (p : platform) (D : float) :
  pow_sane p -> is_nan D = false -> (abs D <=? 1) = true ->
  exists D2,
    float_pow2 p D = Returns D2 /\ (0 <=? D2) = true /\ (D2 <=? 1) = true.
Proof.
  intros Hp Hn Hle. unfold float_pow2. rewrite Hn.
  assert (Hf : is_finite D = true) by (apply (abs_leb_finite D 1); [reflexivity | assumption]).
  assert (Hi : is_infinity D = false).
  { unfold is_finite in Hf. rewrite Hn in Hf. cbn [orb] in Hf.
    now apply negb_true_iff in Hf. }
  rewrite Hi.
  destruct (D =? 0) eqn:Hz; [exists 0; repeat split; reflexivity|].
  cbv zeta.
  destruct (abs D =? 1) eqn:H1; [exists 1; repeat split; reflexivity|].
  assert (Hpos : (0 <? abs D) = true) by now apply abs_positive.
  assert (Hlt : (abs D <? 1) = true).
  { rewrite FloatAxioms.ltb_spec. apply SFleb_not_eqb.
    - now rewrite <- FloatAxioms.leb_spec.
    - now rewrite <- FloatAxioms.eqb_spec. }
  destruct (Hp (abs D) Hpos Hlt) as [Hr0 Hr1].
  assert (Hrf : is_finite (pow2 p (abs D)) = true).
  { apply (leb_range_finite _ 0 1); try reflexivity; assumption. }
  assert (Hri : is_infinity (pow2 p (abs D)) = false).
  { unfold is_finite in Hrf. apply negb_true_iff in Hrf.
    now apply orb_false_iff in Hrf. }
  rewrite Hri. eauto.
Qed.

(** Past the guard the square never raises. *)
Lemma float_pow2_guarded (p : platform) (D : float) :
  pow_sane p -> (1 <? abs D) = false ->
  exists D2, float_pow2 p D = Returns D2.
Proof.
  intros Hp Hg. destruct (guard_false D Hg) as [Hn | Hle].
  - rewrite float_pow2_nan by assumption. eauto.
  - destruct (is_nan D) eqn:Hn.
    + rewrite float_pow2_nan by assumption. eauto.
    + destruct (float_pow2_unit p D Hp Hn Hle) as (D2 & -> & _). eauto.
Qed.



(** ** What is not a number stays so *)

Lemma is_finite_false (v : float) :
  is_finite v = false <-> ~ SFnum (Prim2SF v).
Proof.
  rewrite <- is_finite_spec. destruct (is_finite v); split; congruence.
Qed.

Lemma add_finite_inv (a b : float) :
  is_finite (a + b) = true -> is_finite a = true /\ is_finite b = true.
Proof.
  rewrite !is_finite_spec, add_spec. unfold SF64add, SFadd.
  destruct (Prim2SF a) as [sa | sa | | sa ma ea], (Prim2SF b) as [sb | sb | | sb mb eb];
    cbn [SFnum]; try tauto; destruct sa, sb; cbn [SFnum]; tauto.
Qed.

Lemma sub_finite_inv (a b : float) :
  is_finite (a - b) = true -> is_finite a = true /\ is_finite b = true.
Proof.
  rewrite !is_finite_spec, sub_spec. unfold SF64sub, SFsub.
  destruct (Prim2SF a) as [sa | sa | | sa ma ea], (Prim2SF b) as [sb | sb | | sb mb eb];
    cbn [SFnum]; try tauto; destruct sa, sb; cbn [SFnum]; tauto.
Qed.

Lemma div_finite_inv (a b : float) :
  is_finite (a / b) = true -> is_finite a = true.
Proof.
  rewrite !is_finite_spec, div_spec. unfold SF64div, SFdiv.
  destruct (Prim2SF a) as [sa | sa | | sa ma ea], (Prim2SF b) as [sb | sb | | sb mb eb];
    cbn [SFnum]; tauto.
Qed.

Lemma abs_infinity (v : float) :
  is_nan v = false -> is_infinity v = true -> abs v = infinity.
Proof.
  intros _ Hi. apply is_infinity_spec in Hi. destruct Hi as [s Hs].
  apply Prim2SF_inj. rewrite abs_spec, Hs. reflexivity.
Qed.

Lemma squared_finite_inv (p : platform) (v : float) :
  is_finite (squared p v) = true -> is_finite v = true.
Proof.
  unfold squared, float_pow2, is_finite at 2.
  destruct (is_nan v) eqn:Hn.
  - rewrite (is_nan_eq v Hn). discriminate.
  - destruct (is_infinity v) eqn:Hi; [|reflexivity].
    rewrite (abs_infinity v Hn Hi). discriminate.
Qed.

(** A quotient [D] that is a number comes from four numbers. *)
Lemma D_value_finite_inv (p : platform) (x y L1 L2 : float) :
  is_finite (D_value p x y L1 L2) = true ->
  is_finite x = true /\ is_finite y = true /\
  is_finite L1 = true /\ is_finite L2 = true.
Proof.
  unfold D_value, D_num. intros H.
  apply div_finite_inv in H.
  apply sub_finite_inv in H. destruct H as [H H2].
  apply sub_finite_inv in H. destruct H as [H H1].
  apply add_finite_inv in H. destruct H as [Hx Hy].
  repeat split; eapply squared_finite_inv; eassumption.
Qed.

(** ** Exponents of differences and of degrees *)

Lemma SFbelow_num (E : Z) (f : spec_float) : SFbelow E f -> SFnum f.
Proof. destruct f; cbn; tauto. Qed.

Lemma binary_round_aux_below (sx : bool) (mx ex E : Z) :
  (0 <= mx < 2 ^ (E + 52 - ex))%Z -> (ex <= E)%Z -> (-1074 <= E <= 970)%Z ->
  SFbelow (E + 1) (binary_round_aux prec emax sx mx ex loc_Exact).
Proof.
  intros Hm Hex HE.
  destruct (binary_round_aux_fits sx mx ex loc_Exact) as (q1 & e1 & He1 & _ & Hq1 & ->);
    [lia|].
  rewrite fexp_eq in He1.
  assert (Hd : (0 <= Zdigits2 mx <= E + 52 - ex)%Z) by (apply Zdigits2_le; lia).
  assert (He : (e1 <= E)%Z) by lia.
  destruct (q1 =? 2 ^ 53)%Z.
  - change (2 ^ 52)%Z with 4503599627370496%Z. cbv iota.
    destruct (Z.leb_spec (e1 + 1) 971); [cbn; lia | lia].
  - destruct q1 as [| mq | mq]; cbn [SFbelow]; try exact I.
    destruct (Z.leb_spec e1 971); [cbn; lia | lia].
Qed.

Lemma binary_round_below (sx : bool) (q : positive) (ez E : Z) :
  (Z.pos q < 2 ^ (E + 52 - ez))%Z -> (ez <= E)%Z -> (-1074 <= E <= 970)%Z ->
  SFbelow (E + 1) (binary_round prec emax sx q ez).
Proof.
  intros Hq Hez HE. unfold binary_round.
  set (F := fexp prec emax (Z.pos (digits2_pos q) + ez)).
  destruct (shl_align_fst q ez F) as [Hm He].
  destruct (shl_align q ez F) as [mz ez']. cbn [fst snd] in Hm, He.
  apply binary_round_aux_below; try lia.
  split; [lia|]. rewrite Hm. subst ez'.
  set (k := Z.max 0 (ez - F)).
  replace (E + 52 - Z.min ez F)%Z with ((E + 52 - ez) + k)%Z by lia.
  rewrite pow2_split by lia.
  assert (0 < 2 ^ k)%Z by (apply pow2_pos; lia). nia.
Qed.

Lemma abs_leb_below (v : float) :
  (abs v <=? Binary64.pi) = true -> SFbelow (-51) (Prim2SF v).
Proof.
  rewrite FloatAxioms.leb_spec, abs_spec, Prim2SF_pi.
  destruct (Prim2SF v) as [s | s | | s m e]; cbn [SFabs SFbelow]; try discriminate;
    try (intros; exact I).
  intros H. apply SFleb_finite in H. lia.
Qed.

Lemma sub_below (a b : float) :
  SFbelow (-51) (Prim2SF a) -> SFbelow (-51) (Prim2SF b) ->
  SFbelow (-48) (Prim2SF (a - b)).
Proof.
  rewrite sub_spec. unfold SF64sub, SFsub.
  destruct (Prim2SF a) as [sa | sa | | sa ma ea] eqn:Ea;
    destruct (Prim2SF b) as [sb | sb | | sb mb eb] eqn:Eb;
    cbn [SFbelow]; try contradiction; intros Ha Hb.
  - destruct sa, sb; exact I.
  - lia.
  - lia.
  - destruct (Prim2SF_finite a _ _ _ Ea) as (Hea & Hma & _).
    destruct (Prim2SF_finite b _ _ _ Eb) as (Heb & Hmb & _).
    set (ez := Z.min ea eb).
    destruct (shl_align_fst ma ea ez) as [Hfa _].
    destruct (shl_align_fst mb eb ez) as [Hfb _].
    set (za := Z.pos (fst (shl_align ma ea ez))) in *.
    set (zb := Z.pos (fst (shl_align mb eb ez))) in *.
    assert (Hza : (0 < za < 2 ^ (2 - ez))%Z).
    { split; [unfold za; lia|]. rewrite Hfa.
      replace (2 - ez)%Z with (53 + (-51 - ez))%Z by lia.
      rewrite pow2_split by lia.
      assert (2 ^ Z.max 0 (ea - ez) <= 2 ^ (-51 - ez))%Z by (apply pow2_le; lia).
      assert (0 < 2 ^ Z.max 0 (ea - ez))%Z by (apply pow2_pos; lia).
      nia. }
    assert (Hzb : (0 < zb < 2 ^ (2 - ez))%Z).
    { split; [unfold zb; lia|]. rewrite Hfb.
      replace (2 - ez)%Z with (53 + (-51 - ez))%Z by lia.
      rewrite pow2_split by lia.
      assert (2 ^ Z.max 0 (eb - ez) <= 2 ^ (-51 - ez))%Z by (apply pow2_le; lia).
      assert (0 < 2 ^ Z.max 0 (eb - ez))%Z by (apply pow2_pos; lia).
      nia. }
    assert (Hsum : (Z.abs (cond_Zopp sa za - cond_Zopp sb zb) < 2 ^ (3 - ez))%Z).
    { replace (3 - ez)%Z with (Z.succ (2 - ez)) by lia. rewrite Z.pow_succ_r by lia.
      destruct sa, sb; cbn [cond_Zopp]; lia. }
    unfold binary_normalize.
    destruct (cond_Zopp sa za - cond_Zopp sb zb)%Z as [| q | q]; [exact I | |];
      change (-48)%Z with (-49 + 1)%Z; apply binary_round_below; try lia;
      replace (-49 + 52 - ez)%Z with (3 - ez)%Z by lia; lia.
Qed.

Lemma degrees_below (t : float) :
  SFbelow (-48) (Prim2SF t) -> SFbelow (-40) (Prim2SF (Binary64.degrees t)).
Proof.
  unfold Binary64.degrees. rewrite mul_spec, Prim2SF_rad2deg. unfold SF64mul, SFmul.
  destruct (Prim2SF t) as [s | s | | s m e] eqn:E; cbn [SFbelow]; try contradiction;
    intros He; [exact I|].
  destruct (Prim2SF_finite t _ _ _ E) as (_ & Hm & _).
  change (-40)%Z with (-41 + 1)%Z. apply binary_round_aux_below; try lia.
  split; [lia|]. rewrite Pos2Z.inj_mul.
  assert (2 ^ 106 <= 2 ^ (-41 + 52 - (e + -47)))%Z by (apply pow2_le; lia).
  change (2 ^ 106)%Z with (2 ^ 53 * 2 ^ 53)%Z in *.
  change (2 ^ 53)%Z with 9007199254740992%Z in *. nia.
Qed.

(** The shoulder angle in degrees is a finite number. *)
Lemma shoulder_degrees_finite (a b : float) :
  (abs a <=? Binary64.pi) = true -> (abs b <=? Binary64.pi) = true ->
  is_finite (Binary64.degrees (a - b)) = true.
Proof.
  intros Ha Hb. apply is_finite_spec. apply (SFbelow_num (-40)).
  apply degrees_below. apply sub_below; now apply abs_leb_below.
Qed.

Lemma leb_0_not_ltb (v : float) : (0 <=? v) = true -> (v <? 0) = false.
Proof.
  rewrite FloatAxioms.leb_spec, FloatAxioms.ltb_spec, Prim2SF_0.
  destruct (Prim2SF v) as [[|] | [|] | | [|] m e]; cbn; congruence.
Qed.

Lemma Prim2SF_2 : Prim2SF 2 = S754_finite false 4503599627370496 (-51).
Proof. reflexivity. Qed.

Lemma eqb_0_spec (v : float) : (v =? 0) = true <-> exists s, Prim2SF v = S754_zero s.
Proof.
  rewrite FloatAxioms.eqb_spec, Prim2SF_0.
  destruct (Prim2SF v) as [s | s | | s m e]; cbn.
  - split; [eauto | reflexivity].
  - destruct s; split; [discriminate | intros [? ?]; discriminate | discriminate | intros [? ?]; discriminate].
  - split; [discriminate | intros [? ?]; discriminate].
  - destruct s; split; [discriminate | intros [? ?]; discriminate | discriminate | intros [? ?]; discriminate].
Qed.

(** A zero length and a finite one: the divisor is zero. *)
Lemma D_den_zero_l (L1 L2 : float) :
  (L1 =? 0) = true -> is_finite L2 = true -> (Binary64.D_den L1 L2 =? 0) = true.
Proof.
  rewrite !eqb_0_spec, is_finite_spec. intros [s Hs] H2.
  unfold Binary64.D_den. rewrite !mul_spec, Prim2SF_2, Hs.
  unfold SF64mul, SFmul.
  destruct (Prim2SF L2) as [s2 | s2 | | s2 m2 e2]; cbn [SFnum] in H2; try contradiction; eauto.
Qed.

Lemma D_den_zero_r (L1 L2 : float) :
  (L2 =? 0) = true -> is_finite (2 * L1) = true -> (Binary64.D_den L1 L2 =? 0) = true.
Proof.
  rewrite !eqb_0_spec, is_finite_spec. intros [s Hs] H1.
  unfold Binary64.D_den. rewrite mul_spec, Hs.
  unfold SF64mul, SFmul.
  destruct (Prim2SF (2 * L1)) as [s1 | s1 | | s1 m1 e1]; cbn [SFnum] in H1;
    try contradiction; eauto.
Qed.

Lemma inverse_kinematics_returns64 (p : platform) (x y L1 L2 : float) :
  pow_sane p ->
  some_square_overflows p x y L1 L2 = false ->
  (Binary64.D_den L1 L2 =? 0) = false ->
  exists r, inverse_kinematics p x y L1 L2 = Returns r.
Proof.
  intros Hp Ho Hd. rewrite inverse_kinematics_eq, Ho, Hd. cbv zeta.
  destruct (1 <? abs (D_value p x y L1 L2)) eqn:Hg; [eauto|].
  destruct (float_pow2_guarded p _ Hp Hg) as [D2 ->]. cbn [and_then]. eauto.
Qed.

(** C7, amended.  The link lengths are not validated.  A call raises
    [ZeroDivisionError] exactly when none of the four squares has
    overflowed and the computed divisor [2 * L1 * L2] is a zero.  The
    divisor is a zero when [L1] is a zero and [L2] is finite, and when
    [L2] is a zero and [2 * L1] is finite.  When no square overflows and
    the divisor is not a zero, the division is carried out and the call
    returns. *)
Theorem zero_divisor_raises (p : platform) (x y L1 L2 : float) :
  pow_sane p ->
  let overflow := some_square_overflows p x y L1 L2 in
  let divisor := Binary64.D_den L1 L2 in
  (inverse_kinematics p x y L1 L2 = Raises ZeroDivisionError <->
   overflow = false /\ (divisor =? 0) = true) /\
  ((L1 =? 0) = true -> is_finite L2 = true -> (divisor =? 0) = true) /\
  ((L2 =? 0) = true -> is_finite (2 * L1) = true -> (divisor =? 0) = true) /\
  (overflow = false -> (divisor =? 0) = false ->
   exists r, inverse_kinematics p x y L1 L2 = Returns r).
Proof.
  intros Hp overflow divisor.
  split; [|split; [apply D_den_zero_l | split; [apply D_den_zero_r |]]].
  - rewrite inverse_kinematics_eq. fold overflow divisor.
    destruct overflow; [split; [discriminate | intros [? _]; discriminate]|].
    destruct (divisor =? 0); [tauto|].
    cbv zeta. split; [|intros [_ ?]; discriminate].
    destruct (1 <? abs (D_value p x y L1 L2)) eqn:Hg; [discriminate|].
    destruct (float_pow2_guarded p _ Hp Hg) as [D2 ->]. discriminate.
  - now apply inverse_kinematics_returns64.
Qed.

(** ** The success path *)

(** What a pair of angles was computed from. *)
Lemma inverse_kinematics_angles_inv (p : platform) (x y L1 L2 theta1 theta2 : float) :
  inverse_kinematics p x y L1 L2 = Returns (Some theta1, Some theta2) ->
  let D := D_value p x y L1 L2 in
  (1 <? abs D) = false /\
  exists D2,
    float_pow2 p D = Returns D2 /\
    theta2 = Binary64.degrees (elbow (numpy p) D2 D) /\
    theta1 = Binary64.degrees (shoulder (numpy p) x y L1 L2 (elbow (numpy p) D2 D)).
Proof.
  rewrite inverse_kinematics_eq. intros H D.
  destruct (some_square_overflows p x y L1 L2); [discriminate|].
  destruct (Binary64.D_den L1 L2 =? 0); [discriminate|].
  cbv zeta in H. fold D in H.
  destruct (1 <? abs D); [discriminate|]. split; [reflexivity|].
  destruct (float_pow2 p D) as [D2 | e]; [|discriminate].
  cbn [and_then] in H. injection H as <- <-. eauto.
Qed.

Lemma angles_of_nan (m : Binary64.libm) (x y L1 L2 : float) :
  numpy_sane m ->
  Binary64.degrees (elbow m nan nan) = nan /\
  Binary64.degrees (shoulder m x y L1 L2 (elbow m nan nan)) = nan.
Proof.
  intros Hm.
  assert (He : elbow m nan nan = nan).
  { unfold elbow. apply (arctan2_nan m Hm). now right. }
  rewrite He. split; [reflexivity|].
  unfold shoulder. rewrite (sin_nan m Hm), nan_mul_r.
  rewrite (arctan2_nan m Hm nan) by now left.
  now rewrite nan_sub_r.
Qed.

Lemma elbow_range (p : platform) (D D2 : float) :
  numpy_sane (numpy p) ->
  is_nan D = false -> (0 <=? D2) = true -> (D2 <=? 1) = true ->
  plus_signed (1 - D2) = true /\ plus_signed (PrimFloat.sqrt (1 - D2)) = true /\
  (0 <=? elbow (numpy p) D2 D) = true /\
  (elbow (numpy p) D2 D <=? Binary64.pi) = true.
Proof.
  intros Hm Hn H0 H1.
  pose proof (one_minus_unit D2 H0 H1) as Hw.
  pose proof (sqrt_plus _ Hw) as Hs.
  split; [assumption|]. split; [assumption|].
  unfold elbow. now apply (arctan2_upper _ Hm).
Qed.

Lemma shoulder_finite (m : Binary64.libm) (x y L1 L2 theta2 : float) :
  numpy_sane m ->
  is_finite x = true -> is_finite y = true ->
  is_finite L1 = true -> is_finite L2 = true -> is_finite theta2 = true ->
  is_finite (Binary64.degrees (shoulder m x y L1 L2 theta2)) = true.
Proof.
  intros Hm Hx Hy H1 H2 Ht. unfold shoulder.
  assert (Hs : is_finite (Binary64.sin m theta2) = true).
  { apply (abs_leb_finite _ 1); [reflexivity | now apply (sin_range m Hm)]. }
  assert (Hc : is_finite (Binary64.cos m theta2) = true).
  { apply (abs_leb_finite _ 1); [reflexivity | now apply (cos_range m Hm)]. }
  apply shoulder_degrees_finite; apply (arctan2_range m Hm);
    try (now apply is_finite_not_nan).
  - now apply mul_finite.
  - apply add_finite; [assumption | now apply mul_finite].
Qed.

(** C8, amended.  On the success path the guard has established that
    [abs(D) > 1] is false, which holds of a [D] that is [nan] as well as
    of [D] in [[-1, 1]].  When [D] is [nan], both returned angles are
    [nan].  When [D] is a number, [abs(D) <= 1], the argument
    [1 - D ** 2] of the square root is [+0.0] or positive, so is the
    root, and both returned angles are finite numbers. *)
Theorem success_path_numbers (p : platform) (x y L1 L2 theta1 theta2 : float) :
  pow_sane p -> numpy_sane (numpy p) ->
  inverse_kinematics p x y L1 L2 = Returns (Some theta1, Some theta2) ->
  let D := D_value p x y L1 L2 in
  (1 <? abs D) = false /\
  ((is_nan D = true /\ theta1 = nan /\ theta2 = nan) \/
   ((abs D <=? 1) = true /\
    (exists D2,
        float_pow2 p D = Returns D2 /\
        plus_signed (1 - D2) = true /\ plus_signed (PrimFloat.sqrt (1 - D2)) = true) /\
    is_finite theta1 = true /\ is_finite theta2 = true)).
Proof.
  intros Hp Hm H D.
  destruct (inverse_kinematics_angles_inv _ _ _ _ _ _ _ H) as (Hg & D2 & HD2 & -> & ->).
  fold D in Hg, HD2 |- *. split; [assumption|].
  destruct (guard_false D Hg) as [Hn | Hle].
  - left. split; [assumption|].
    rewrite float_pow2_nan in HD2 by assumption. injection HD2 as <-.
    rewrite (is_nan_eq D Hn).
    destruct (angles_of_nan (numpy p) x y L1 L2 Hm) as [-> ->]. split; reflexivity.
  - right. split; [assumption|].
    assert (Hf : is_finite D = true)
      by (apply (abs_leb_finite D 1); [reflexivity | assumption]).
    pose proof (is_finite_not_nan D Hf) as Hn.
    destruct (float_pow2_unit p D Hp Hn Hle) as (D2' & HD2' & H0 & H1).
    rewrite HD2 in HD2'. injection HD2' as <-.
    destruct (elbow_range p D D2 Hm Hn H0 H1) as (Hw & Hs & He0 & He1).
    split; [eauto|].
    destruct (D_value_finite_inv p x y L1 L2 Hf) as (Hx & Hy & HL1 & HL2).
    assert (Het : is_finite (elbow (numpy p) D2 D) = true).
    { apply (leb_range_finite _ 0 Binary64.pi); try reflexivity; assumption. }
    split.
    + now apply shoulder_finite.
    + destruct (degrees_range _ He0 He1) as [Hd0 Hd1].
      apply (leb_range_finite _ 0 180); try reflexivity; assumption.
Qed.

(** C4, amended.  Whenever angles are returned, [theta2] is
    [np.degrees(np.arctan2(np.sqrt(1 - D ** 2), D))], and the sine
    component [np.sqrt(1 - D ** 2)] is never negative.  [theta2] is [nan]
    when [D] is [nan] and lies in [[0, 180]] otherwise; a negative elbow
    angle is never returned. *)
Theorem elbow_up_or_nan (p : platform) (x y L1 L2 theta1 theta2 : float) :
  pow_sane p -> numpy_sane (numpy p) ->
  inverse_kinematics p x y L1 L2 = Returns (Some theta1, Some theta2) ->
  let D := D_value p x y L1 L2 in
  exists D2,
    float_pow2 p D = Returns D2 /\
    theta2 =
      Binary64.degrees (Binary64.arctan2 (numpy p) (PrimFloat.sqrt (1 - D2)) D) /\
    (PrimFloat.sqrt (1 - D2) <? 0) = false /\
    ((is_nan D = true /\ theta2 = nan) \/
     (is_nan D = false /\ (0 <=? theta2) = true /\ (theta2 <=? 180) = true)) /\
    (theta2 <? 0) = false.
Proof.
  intros Hp Hm H D.
  destruct (inverse_kinematics_angles_inv _ _ _ _ _ _ _ H) as (Hg & D2 & HD2 & -> & _).
  fold D in Hg, HD2 |- *. exists D2. split; [assumption|]. split; [reflexivity|].
  destruct (guard_false D Hg) as [Hn | Hle].
  - rewrite float_pow2_nan in HD2 by assumption. injection HD2 as <-.
    split; [reflexivity|].
    rewrite (is_nan_eq D Hn).
    destruct (angles_of_nan (numpy p) x y L1 L2 Hm) as [-> _].
    split; [left; split; reflexivity | reflexivity].
  - assert (Hf : is_finite D = true)
      by (apply (abs_leb_finite D 1); [reflexivity | assumption]).
    pose proof (is_finite_not_nan D Hf) as Hn.
    destruct (float_pow2_unit p D Hp Hn Hle) as (D2' & HD2' & H0 & H1).
    rewrite HD2 in HD2'. injection HD2' as <-.
    destruct (elbow_range p D D2 Hm Hn H0 H1) as (Hw & Hs & He0 & He1).
    destruct (degrees_range _ He0 He1) as [Hd0 Hd1].
    split; [apply leb_0_not_ltb; now apply plus_leb|].
    split; [right; auto | now apply leb_0_not_ltb].
Qed.

(** ** Single calls *)

Ltac run_solver :=
  rewrite inverse_kinematics_eq;
  match goal with
  | |- context [some_square_overflows ?p ?x ?y ?a ?b] =>
      let v := eval vm_compute in (some_square_overflows p x y a b) in
      replace (some_square_overflows p x y a b) with v by (vm_compute; reflexivity)
  end;
  cbv iota;
  match goal with
  | |- context [Binary64.D_den ?a ?b =? 0] =>
      let v := eval vm_compute in (Binary64.D_den a b =? 0) in
      replace (Binary64.D_den a b =? 0) with v by (vm_compute; reflexivity)
  end;
  cbv iota zeta;
  try match goal with
  | |- context [D_value ?p ?x ?y ?a ?b] =>
      let v := eval vm_compute in (D_value p x y a b) in
      replace (D_value p x y a b) with v by (vm_compute; reflexivity)
  end.

Lemma underflow_divides_by_zero (m : Binary64.libm) :
  inverse_kinematics (correctly_rounded m) 0 0 0x1p-600 0x1p-600
  = Raises ZeroDivisionError.
Proof.
  run_solver. reflexivity.
Qed.

Lemma overflow_before_division (p : platform) :
  is_infinity (pow2 p 0x1p+600) = true ->
  inverse_kinematics p 0x1p+600 0 0 1 = Raises OverflowError.
Proof.
  intros H. unfold inverse_kinematics.
  assert (E : float_pow2 p 0x1p+600 = Raises OverflowError).
  { unfold float_pow2.
    change (is_nan 0x1p+600) with false. change (is_infinity 0x1p+600) with false.
    change (0x1p+600 =? 0) with false. cbv iota zeta.
    change (abs 0x1p+600) with 0x1p+600. change (0x1p+600 =? 1) with false.
    cbv iota. now rewrite H. }
  now rewrite E.
Qed.

Lemma solver_on_nan (p : platform) (x y L1 L2 : float) :
  numpy_sane (numpy p) ->
  some_square_overflows p x y L1 L2 = false ->
  (Binary64.D_den L1 L2 =? 0) = false ->
  D_value p x y L1 L2 = nan ->
  inverse_kinematics p x y L1 L2 = Returns (Some nan, Some nan).
Proof.
  intros Hm Ho Hd HD. rewrite inverse_kinematics_eq, Ho, Hd. cbv zeta. rewrite HD.
  change (1 <? abs nan) with false. cbv iota.
  rewrite float_pow2_nan by reflexivity. cbn [and_then].
  now destruct (angles_of_nan (numpy p) x y L1 L2 Hm) as [-> ->].
Qed.

Lemma huge_links_give_nan (m : Binary64.libm) :
  numpy_sane m ->
  inverse_kinematics (correctly_rounded m) 0 0
    0x1.7dddf6b095ff1p+511 0x1.7dddf6b095ff1p+511
  = Returns (Some nan, Some nan).
Proof.
  intros Hm. apply solver_on_nan; try assumption; vm_compute; reflexivity.
Qed.

Lemma zero_and_infinite_link_give_nan (m : Binary64.libm) :
  numpy_sane m ->
  inverse_kinematics (correctly_rounded m) 1 0 0 infinity
  = Returns (Some nan, Some nan).
Proof.
  intros Hm. apply solver_on_nan; try assumption; vm_compute; reflexivity.
Qed.

Lemma returns_angles (p : platform) (x y L1 L2 : float) :
  pow_sane p ->
  some_square_overflows p x y L1 L2 = false ->
  (Binary64.D_den L1 L2 =? 0) = false ->
  (1 <? abs (D_value p x y L1 L2)) = false ->
  exists theta1 theta2,
    inverse_kinematics p x y L1 L2 = Returns (Some theta1, Some theta2).
Proof.
  intros Hp Ho Hd Hg. rewrite inverse_kinematics_eq, Ho, Hd. cbv zeta. rewrite Hg.
  destruct (float_pow2_guarded p _ Hp Hg) as [D2 ->]. cbn [and_then]. eauto.
Qed.

Lemma returns_none (p : platform) (x y L1 L2 : float) :
  some_square_overflows p x y L1 L2 = false ->
  (Binary64.D_den L1 L2 =? 0) = false ->
  (1 <? abs (D_value p x y L1 L2)) = true ->
  inverse_kinematics p x y L1 L2 = Returns (None, None).
Proof.
  intros Ho Hd Hg. rewrite inverse_kinematics_eq, Ho, Hd. cbv zeta. now rewrite Hg.
Qed.

(** ** Slider values on the real line *)

Lemma powerRZ_2_shift (e k : Z) :
  powerRZ 2 (e + k) = (powerRZ 2 k * powerRZ 2 e)%R.
Proof.
  rewrite powerRZ_add by lra. ring.
Qed.


(** Sliders [12, 0, 1, 11]: the target is strictly between the circles. *)
Lemma inside_12_1_11 :
  exists X A B : R,
    Binary64.real_value (Binary64.hundredths 12) = Some X /\
    Binary64.real_value (Binary64.hundredths 1) = Some A /\
    Binary64.real_value (Binary64.hundredths 11) = Some B /\
    (0 < A /\ 0 < B /\ B - A < X /\ X < A + B)%R.
Proof.
  exists (IZR 8646911284551352 * powerRZ 2 (-56))%R,
         (IZR 5764607523034235 * powerRZ 2 (-59))%R,
         (IZR 7926335344172073 * powerRZ 2 (-56))%R.
  split; [vm_compute; reflexivity|].
  split; [vm_compute; reflexivity|].
  split; [vm_compute; reflexivity|].
  change (-56)%Z with (-59 + 3)%Z. rewrite powerRZ_2_shift.
  assert (Ht : (0 < powerRZ 2 (-59))%R) by (apply powerRZ_lt; lra).
  change (powerRZ 2 3) with (2 * (2 * (2 * 1)))%R.
  set (t := powerRZ 2 (-59)) in *.
  repeat split; nra.
Qed.

(** ** The two embeddings on binary64 numbers agree *)

Lemma eqb_1_spec (v : float) :
  (abs v =? 1) = true -> exists s, Prim2SF v = S754_finite s 4503599627370496 (-52).
Proof.
  rewrite FloatAxioms.eqb_spec, abs_spec, Prim2SF_1.
  destruct (Prim2SF v) as [s | s | | s m e]; cbn [SFabs]; try discriminate.
  unfold SFeqb, SFcompare. rewrite compare_cont_Eq.
  destruct (Z.compare_spec e (-52)) as [-> | |]; try discriminate.
  destruct (Pos.compare_spec m 4503599627370496) as [-> | |]; try discriminate.
  eauto.
Qed.

Lemma square_abs (v : float) : abs v * abs v = v * v.
Proof.
  apply Prim2SF_inj. rewrite !mul_spec, abs_spec. unfold SF64mul, SFmul.
  destruct (Prim2SF v) as [[|] | [|] | | [|] m e]; reflexivity.
Qed.

Lemma squared_correctly_rounded (m : Binary64.libm) (v : float) :
  overflows (correctly_rounded m) v = false ->
  squared (correctly_rounded m) v = Binary64.square v.
Proof.
  unfold overflows, squared, float_pow2, Binary64.square.
  cbn [pow2 correctly_rounded].
  destruct (is_nan v) eqn:Hn.
  { intros _. rewrite (is_nan_eq v Hn). reflexivity. }
  destruct (is_infinity v) eqn:Hi.
  { intros _. apply is_infinity_spec in Hi. destruct Hi as [s Hs].
    apply Prim2SF_inj. rewrite abs_spec, mul_spec, Hs. now destruct s. }
  destruct (v =? 0) eqn:Hz.
  { intros _. apply eqb_0_spec in Hz. destruct Hz as [s Hs].
    apply Prim2SF_inj. rewrite mul_spec, Hs. now destruct s. }
  cbv zeta. destruct (abs v =? 1) eqn:H1.
  { intros _. apply eqb_1_spec in H1. destruct H1 as [s Hs].
    apply Prim2SF_inj. rewrite mul_spec, Hs. destruct s; vm_compute; reflexivity. }
  unfold Binary64.square.
  destruct (is_infinity (abs v * abs v)); [discriminate|].
  intros _. apply square_abs.
Qed.

Lemma embeddings_agree (m : Binary64.libm) (x y L1 L2 : float) :
  some_square_overflows (correctly_rounded m) x y L1 L2 = false ->
  inverse_kinematics (correctly_rounded m) x y L1 L2
  = of_py (Binary64.inverse_kinematics m x y L1 L2).
Proof.
  intros Ho. rewrite inverse_kinematics_eq, Ho.
  unfold some_square_overflows in Ho.
  apply orb_false_iff in Ho. destruct Ho as [Ho H2].
  apply orb_false_iff in Ho. destruct Ho as [Ho H1].
  apply orb_false_iff in Ho. destruct Ho as [Hx Hy].
  unfold Binary64.inverse_kinematics, Binary64.py_div, D_value, D_num, Binary64.D_num.
  rewrite !squared_correctly_rounded by assumption.
  destruct (Binary64.D_den L1 L2 =? 0); [reflexivity|].
  cbn [bind of_py]. cbv zeta.
  set (D := (Binary64.square x + Binary64.square y - Binary64.square L1
             - Binary64.square L2) / Binary64.D_den L1 L2).
  destruct (1 <? abs D) eqn:Hg; [reflexivity|].
  destruct (float_pow2_guarded (correctly_rounded m) D (square_pow_sane m) Hg) as [D2 HD2].
  assert (HD : D2 = Binary64.square D).
  { rewrite <- (squared_correctly_rounded m D).
    - unfold squared. now rewrite HD2.
    - unfold overflows. now rewrite HD2. }
  rewrite HD2, HD. reflexivity.
Qed.

(** ** A target within reach that the solver refuses *)

(** C1, at two settings of the sliders.  With the sliders at 60, 0, 30,
    30 the window calls the solver with four binary64 numbers for which
    [x = L1 + L2] exactly and [y = 0]: the target is on the outer circle,
    and the arm stretched out along the x axis, [theta1 = theta2 = 0],
    ends on it in the arithmetic of [plot_robot_arm].  With the sliders
    at 12, 0, 1, 11 the target lies strictly between the two circles.
    In both calls the rounded quotient [D] exceeds 1 and the solver
    answers [(None, None)], its 'No solution'. *)
Theorem reachable_target_is_refused :
  (Binary64.hundredths 60 = Binary64.hundredths 30 + Binary64.hundredths 30 /\
   (forall m : Binary64.libm,
       Binary64.cos m 0 = 1 -> Binary64.sin m 0 = 0 ->
       end_effector
         (plot_robot_arm m 0 0 (Binary64.hundredths 30) (Binary64.hundredths 30))
       = (Binary64.hundredths 60, 0)) /\
   (forall m : Binary64.libm,
       inverse_kinematics (correctly_rounded m)
         (Binary64.hundredths 60) 0 (Binary64.hundredths 30) (Binary64.hundredths 30)
       = Returns (None, None))) /\
  ((exists X A B : R,
       Binary64.real_value (Binary64.hundredths 12) = Some X /\
       Binary64.real_value (Binary64.hundredths 1) = Some A /\
       Binary64.real_value (Binary64.hundredths 11) = Some B /\
       (0 < A /\ 0 < B /\ B - A < X /\ X < A + B)%R) /\
   (forall m : Binary64.libm,
       inverse_kinematics (correctly_rounded m)
         (Binary64.hundredths 12) 0 (Binary64.hundredths 1) (Binary64.hundredths 11)
       = Returns (None, None))).
Proof.
  split; [split; [|split] | split].
  - vm_compute. reflexivity.
  - intros m Hc Hs. unfold plot_robot_arm. cbn [end_effector fst snd].
    change (radians 0) with 0. change (0 + 0) with 0. rewrite Hc, Hs.
    vm_compute. reflexivity.
  - intros m. apply returns_none; vm_compute; reflexivity.
  - exact inside_12_1_11.
  - intros m. apply returns_none; vm_compute; reflexivity.
Qed.



(** C7 as stated fails.  Lengths that are not zero, [L1 = L2 = 2 ** -600],
    give a division by zero, because their product underflows.  With
    [L1 = 0] the division is not reached when [x ** 2] overflows first,
    and it is no division by zero when [L2] is infinite: the divisor
    [2 * 0 * inf] is [nan] and the call returns two [nan]. *)
Lemma zero_length_without_division_by_zero :
  ((0x1p-600 =? 0) = false /\
   (forall m : Binary64.libm,
       inverse_kinematics (correctly_rounded m) 0 0 0x1p-600 0x1p-600
       = Raises ZeroDivisionError)) /\
  (forall p : platform,
      is_infinity (pow2 p 0x1p+600) = true ->
      inverse_kinematics p 0x1p+600 0 0 1 = Raises OverflowError) /\
  (forall m : Binary64.libm,
      numpy_sane m ->
      inverse_kinematics (correctly_rounded m) 1 0 0 infinity
      = Returns (Some nan, Some nan)).
Proof.
  split; [split; [reflexivity | exact underflow_divides_by_zero]|].
  split; [exact overflow_before_division | exact zero_and_infinite_link_give_nan].
Qed.

Lemma zero_divisor_raises_witness :
  inverse_kinematics (correctly_rounded coarse) 1 0 0 1 = Raises ZeroDivisionError /\
  exists r, inverse_kinematics (correctly_rounded coarse) 3 0 2 2 = Returns r.
Proof.
  destruct (zero_divisor_raises (correctly_rounded coarse) 1 0 0 1 (square_pow_sane coarse))
    as (Hz & Hl & _ & _).
  destruct (zero_divisor_raises (correctly_rounded coarse) 3 0 2 2 (square_pow_sane coarse))
    as (_ & _ & _ & Hr).
  split.
  - apply Hz. split; [vm_compute; reflexivity|]. apply Hl; reflexivity.
  - apply Hr; vm_compute; reflexivity.
Defined.

(** C8 as stated fails.  For [x = y = 0] and the finite lengths
    [L1 = L2 = 1e154] the numerator overflows to [-inf] and the divisor
    to [inf]; [D] is [nan], neither [abs(D) > 1] nor [abs(D) <= 1] holds,
    and the success path returns two [nan]. *)
Lemma success_path_returns_nan :
  is_finite 0x1.7dddf6b095ff1p+511 = true /\
  (forall m : Binary64.libm,
      D_value (correctly_rounded m) 0 0 0x1.7dddf6b095ff1p+511 0x1.7dddf6b095ff1p+511
      = nan) /\
  ((1 <? abs nan) = false /\ (abs nan <=? 1) = false) /\
  (forall m : Binary64.libm,
      numpy_sane m ->
      inverse_kinematics (correctly_rounded m) 0 0
        0x1.7dddf6b095ff1p+511 0x1.7dddf6b095ff1p+511
      = Returns (Some nan, Some nan)).
Proof.
  split; [reflexivity|]. split; [intros m; vm_compute; reflexivity|].
  split; [split; reflexivity | exact huge_links_give_nan].
Qed.

Lemma success_path_numbers_witness :
  exists theta1 theta2,
    inverse_kinematics (correctly_rounded coarse) 3 0 2 2
    = Returns (Some theta1, Some theta2) /\
    is_finite theta1 = true /\ is_finite theta2 = true.
Proof.
  destruct (returns_angles (correctly_rounded coarse) 3 0 2 2 (square_pow_sane coarse))
    as (t1 & t2 & H); try (vm_compute; reflexivity).
  exists t1, t2. split; [exact H|].
  destruct (success_path_numbers (correctly_rounded coarse) 3 0 2 2 t1 t2
              (square_pow_sane coarse) coarse_sane H) as [_ [[Hn _] | (_ & _ & Hf)]].
  - vm_compute in Hn. discriminate.
  - exact Hf.
Defined.

(** C4 as stated fails.  In the same call, [x = y = 0] and
    [L1 = L2 = 1e154], the returned [theta2] is [nan], which is not in
    [[0, 180]]. *)
Lemma elbow_angle_can_be_nan :
  ((0 <=? nan) = false /\ (nan <=? 180) = false) /\
  (forall m : Binary64.libm,
      numpy_sane m ->
      exists theta1,
        inverse_kinematics (correctly_rounded m) 0 0
          0x1.7dddf6b095ff1p+511 0x1.7dddf6b095ff1p+511
        = Returns (Some theta1, Some nan)).
Proof.
  split; [split; reflexivity|].
  intros m Hm. exists nan. now apply huge_links_give_nan.
Qed.

Lemma elbow_up_or_nan_witness :
  exists theta1 theta2,
    inverse_kinematics (correctly_rounded coarse) 3 0 2 2
    = Returns (Some theta1, Some theta2) /\
    (0 <=? theta2) = true /\ (theta2 <=? 180) = true.
Proof.
  destruct (returns_angles (correctly_rounded coarse) 3 0 2 2 (square_pow_sane coarse))
    as (t1 & t2 & H); try (vm_compute; reflexivity).
  exists t1, t2. split; [exact H|].
  destruct (elbow_up_or_nan (correctly_rounded coarse) 3 0 2 2 t1 t2
              (square_pow_sane coarse) coarse_sane H)
    as (D2 & _ & _ & _ & [[Hn _] | (_ & H0 & H1)] & _).
  - vm_compute in Hn. discriminate.
  - split; assumption.
Defined.

End EveryCall.

(** * Further properties of the code *)

(** ** What the labels show *)

Lemma slider_id_eqb_eq (i j : slider_id) : slider_id_eqb i j = true <-> i = j.
Proof.
  destruct i, j; cbn; split; (reflexivity || discriminate).
Qed.

Lemma get_set_slider (i t : slider_id) (s : Qt.QSlider) (w : Window) :
  get_slider i (set_slider t s w)
  = if slider_id_eqb i t then s else get_slider i w.
Proof.
  destruct i, t; reflexivity.
Qed.

Lemma gui_start_labels (i : slider_id) : label_shows false gui_start i.
Proof.
  destruct i; split; reflexivity.
Qed.

Lemma gui_handle_label_shows (e : event) (g : Gui) (i : slider_id) (b : bool) :
  label_shows b g i ->
  label_shows (snd (handle e (window g)) && slider_id_eqb (target e) i || b)
              (gui_handle e g) i.
Proof.
  unfold label_shows, gui_handle, handle.
  set (old := get_slider (target e) (window g)).
  set (s := Qt.setValue (requested e) old).
  cbn [window label_number snd].
  intros Hg. rewrite !get_set_slider.
  destruct (slider_id_eqb (target e) i) eqn:Et.
  - apply slider_id_eqb_eq in Et. subst i.
    rewrite (proj2 (slider_id_eqb_eq _ _) eq_refl). fold old in Hg.
    rewrite andb_true_r.
    destruct (Z.eqb_spec (Qt.value s) (Qt.value old)) as [Heq | Hneq]; cbn [negb orb].
    + unfold slider_reading in *. rewrite Heq. exact Hg.
    + unfold set_label. now rewrite (proj2 (slider_id_eqb_eq _ _) eq_refl).
  - assert (Ei : slider_id_eqb i (target e) = false).
    { destruct i, (target e); cbn in *; congruence. }
    rewrite Ei, andb_false_r. cbn [orb].
    destruct (negb (Qt.value s =? Qt.value old)%Z); [|exact Hg].
    unfold set_label. rewrite Ei. exact Hg.
Qed.

Lemma gui_run_label_shows (evs : list event) (i : slider_id) :
  forall (g : Gui) (b : bool),
    label_shows b g i ->
    label_shows (emitted i (window g) evs || b)
                (fold_left (fun g e => gui_handle e g) evs g) i.
Proof.
  induction evs as [| e rest IH]; intros g b Hg; cbn [fold_left emitted].
  - exact Hg.
  - pose proof (gui_handle_label_shows e g i b Hg) as Hstep.
    apply IH in Hstep.
    assert (Ew : window (gui_handle e g) = fst (handle e (window g))).
    { unfold gui_handle. now destruct (handle e (window g)). }
    rewrite Ew in Hstep.
    destruct (handle e (window g)) as [w' changed]. cbn [fst snd] in Hstep.
    replace ((changed && slider_id_eqb (target e) i || emitted i w' rest) || b)%bool
      with (emitted i w' rest || (changed && slider_id_eqb (target e) i || b))%bool
      by (destruct (emitted i w' rest), changed, (slider_id_eqb (target e) i), b; reflexivity).
    exact Hstep.
Qed.

(** X11.  At start-up every slider holds 200 and its label shows
    [200.00].  After any sequence of slider events, the label of a slider
    that has changed at least once shows the value [update_plot] reads
    off that slider, also when the slider is back at 200; the label of a
    slider that has not changed still shows [200.00], and that slider
    still holds 200. *)
Theorem labels_follow_the_sliders (evs : list event) (i : slider_id) :
  label_shows false gui_start i /\
  label_shows (emitted i init_ui evs) (gui_run evs) i.
Proof.
  split; [apply gui_start_labels|].
  pose proof (gui_run_label_shows evs i gui_start false (gui_start_labels i)) as H.
  now rewrite orb_false_r in H.
Qed.

(** Away and back: the slider holds 200 again and the label shows 2.00. *)
Lemma labels_follow_the_sliders_witness :
  let evs := [ {| target := SX; requested := 100 |};
               {| target := SX; requested := 200 |} ] in
  Qt.value (get_slider SX (window (gui_run evs))) = 200%Z /\
  label_number (gui_run evs) SX = 2 /\
  label_number (gui_run evs) SY = 200.
Proof.
  intros evs.
  pose proof (labels_follow_the_sliders evs SX) as [_ Hx].
  pose proof (labels_follow_the_sliders evs SY) as [_ Hy].
  split; [reflexivity|]. split.
  - change (emitted SX init_ui evs) with true in Hx. cbv beta iota zeta delta [label_shows] in Hx.
    rewrite Hx. unfold slider_reading.
    change (Qt.value (get_slider SX (window (gui_run evs)))) with 200%Z. lra.
  - change (emitted SY init_ui evs) with false in Hy. apply Hy.
Defined.

(** ** The calls of the program on binary64 numbers *)

Lemma reached_windows_well_ranged (evs : list event) (w : Window) :
  In w (init_ui :: redraws init_ui evs) -> well_ranged w.
Proof.
  intros Hin.
  pose proof (redraws_well_ranged evs init_ui init_ui_well_ranged) as Hall.
  rewrite Forall_forall in Hall.
  destruct Hin as [<- | Hin]; [apply init_ui_well_ranged | now apply Hall].
Qed.

Lemma zrange_In (lo : Z) (n : nat) (k : Z) :
  (lo <= k < lo + Z.of_nat n)%Z -> In k (zrange lo n).
Proof.
  intros Hk. unfold zrange. apply in_map_iff.
  exists (Z.to_nat (k - lo)). split; [lia|].
  apply in_seq. lia.
Qed.

Lemma forallb2_elim (A : Type) (f : A -> A -> bool) (l1 l2 : list A) :
  forallb (fun a => forallb (fun b => f a b) l2) l1 = true ->
  forall a b, In a l1 -> In b l2 -> f a b = true.
Proof.
  intros H a b Ha Hb.
  rewrite forallb_forall in H. specialize (H a Ha). cbv beta in H.
  rewrite forallb_forall in H. exact (H b Hb).
Qed.

Lemma gui_divisors_checked :
  forallb
    (fun a =>
       forallb
         (fun b =>
            negb (PrimFloat.eqb
                    (Binary64.D_den (Binary64.hundredths a) (Binary64.hundredths b))
                    0%float))
         (zrange 1 600))
    (zrange 1 600) = true.
Proof.
  vm_compute. reflexivity.
Qed.

Lemma gui_divisor_nonzero (a b : Z) :
  (1 <= a <= 600)%Z -> (1 <= b <= 600)%Z ->
  PrimFloat.eqb (Binary64.D_den (Binary64.hundredths a) (Binary64.hundredths b))
                0%float = false.
Proof.
  intros Ha Hb.
  pose proof (forallb2_elim Z _ _ _ gui_divisors_checked a b
                (zrange_In 1 600 a ltac:(lia)) (zrange_In 1 600 b ltac:(lia))) as H.
  cbv beta in H. now apply negb_true_iff in H.
Qed.

Lemma binary64_refused (m : Binary64.libm) (x y L1 L2 : float) :
  Binary64.refused x y L1 L2 = true ->
  Binary64.inverse_kinematics m x y L1 L2 = Return (None, None).
Proof.
  unfold Binary64.refused, Binary64.inverse_kinematics.
  destruct (Binary64.py_div _ _) as [D | e]; cbn [bind]; [|discriminate].
  now intros ->.
Qed.

Lemma binary64_accepted (m : Binary64.libm) (x y L1 L2 : float) :
  PrimFloat.eqb (Binary64.D_den L1 L2) 0%float = false ->
  Binary64.refused x y L1 L2 = false ->
  exists theta1 theta2,
    Binary64.inverse_kinematics m x y L1 L2 = Return (Some theta1, Some theta2).
Proof.
  unfold Binary64.refused, Binary64.inverse_kinematics, Binary64.py_div.
  intros -> Hr. cbn [bind] in *. rewrite Hr. eauto.
Qed.

(** X12.  Evaluated on binary64 numbers, no call the program issues
    divides by zero: for every window reached from start-up by slider
    events the divisor [2 * L1 * L2] is not zero and the solver
    returns. *)
Theorem binary64_gui_calls_return
  (m : Binary64.libm) (evs : list event) (w : Window) :
  In w (init_ui :: redraws init_ui evs) ->
  PrimFloat.eqb
    (Binary64.D_den (Binary64.slider_reading (slider_L1 w))
                    (Binary64.slider_reading (slider_L2 w)))
    0%float = false /\
  exists r, Binary64.solve m w = Return r.
Proof.
  intros Hin.
  destruct (reached_windows_well_ranged evs w Hin)
    as (_ & _ & (_ & _ & H1) & (_ & _ & H2)).
  assert (Hden : PrimFloat.eqb
                   (Binary64.D_den (Binary64.slider_reading (slider_L1 w))
                                   (Binary64.slider_reading (slider_L2 w)))
                   0%float = false)
    by exact (gui_divisor_nonzero _ _ H1 H2).
  split; [exact Hden|].
  unfold Binary64.solve.
  destruct (Binary64.refused (Binary64.slider_reading (slider_x w))
              (Binary64.slider_reading (slider_y w))
              (Binary64.slider_reading (slider_L1 w))
              (Binary64.slider_reading (slider_L2 w))) eqn:Hr.
  - rewrite (binary64_refused m _ _ _ _ Hr). eauto.
  - destruct (binary64_accepted m _ _ _ _ Hden Hr) as (t1 & t2 & E).
    rewrite E. eauto.
Qed.

Lemma binary64_gui_calls_return_witness :
  exists r, Binary64.solve Binary64.table stretched_out = Return r.
Proof.
  apply (binary64_gui_calls_return Binary64.table
           [ {| target := SX; requested := 60 |};
             {| target := SY; requested := 0 |};
             {| target := SL1; requested := 30 |};
             {| target := SL2; requested := 30 |} ]
           stretched_out).
  right. right. right. right. left. reflexivity.
Defined.

Lemma doubles_sound (x L : float) :
  Binary64.doubles x L = true ->
  exists X Lr : R,
    Binary64.real_value x = Some X /\ Binary64.real_value L = Some Lr /\
    0 < Lr /\ X = Lr + Lr.
Proof.
  unfold Binary64.doubles, Binary64.real_value.
  destruct (Prim2SF x) as [| | | [] mx ex]; try discriminate.
  destruct (Prim2SF L) as [| | | [] ml el]; try discriminate.
  intros H. apply andb_true_iff in H. destruct H as [Hm He].
  apply Pos.eqb_eq in Hm. apply Z.eqb_eq in He. subst mx ex.
  eexists _, _. split; [reflexivity|]. split; [reflexivity|].
  assert (Hp : 0 < powerRZ 2 el) by (apply powerRZ_lt; lra).
  assert (Hm : 0 < IZR (Z.pos ml)) by (apply IZR_lt; lia).
  split; [now apply Rmult_lt_0_compat|].
  replace (el + 1)%Z with (1 + el)%Z by lia.
  rewrite powerRZ_add by lra. rewrite powerRZ_1. ring.
Qed.

Lemma stretched_on_circle_checked :
  forallb
    (fun k => Binary64.doubles (Binary64.hundredths (2 * k)) (Binary64.hundredths k))
    (zrange 1 300) = true.
Proof.
  vm_compute. reflexivity.
Qed.

Lemma stretched_refused_spec (k : Z) :
  (1 <= k <= 300)%Z ->
  (In k stretched_refused <-> stretched_refused_at k = true).
Proof.
  intros Hk.
  assert (E : stretched_refused = filter stretched_refused_at (zrange 1 300))
    by (vm_compute; reflexivity).
  rewrite E, filter_In.
  pose proof (zrange_In 1 300 k ltac:(lia)). tauto.
Qed.

(** X13.  The arm stretched out, on binary64 numbers.  With both
    lengths at [k/100] and the target at [(2k/100, 0)], for [k] from 1 to
    300, the target lies on the outer circle exactly ([x] is the double of
    the length and [y] is zero).  The solver returns [(None, None)] for
    the 92 settings listed in [stretched_refused], 30 among them, and
    angles for the 208 others. *)
Theorem stretched_arm_on_binary64 (k : Z) :
  (1 <= k <= 300)%Z ->
  let x := Binary64.hundredths (2 * k) in
  let y := Binary64.hundredths 0 in
  let L := Binary64.hundredths k in
  (exists X Lr : R,
      Binary64.real_value x = Some X /\ Binary64.real_value L = Some Lr /\
      Binary64.real_value y = Some 0 /\ 0 < Lr /\ X = Lr + Lr) /\
  (In k stretched_refused ->
   forall m, Binary64.inverse_kinematics m x y L L = Return (None, None)) /\
  (~ In k stretched_refused ->
   forall m, exists theta1 theta2,
     Binary64.inverse_kinematics m x y L L = Return (Some theta1, Some theta2)) /\
  length stretched_refused = 92%nat /\ In 30%Z stretched_refused.
Proof.
  intros Hk x y L.
  pose proof (stretched_refused_spec k Hk) as Hspec.
  split; [|split; [|split]].
  - pose proof stretched_on_circle_checked as H.
    rewrite forallb_forall in H.
    specialize (H k (zrange_In 1 300 k ltac:(lia))). cbv beta in H.
    destruct (doubles_sound _ _ H) as (X & Lr & HX & HL & Hpos & E).
    exists X, Lr. repeat split; assumption || reflexivity.
  - intros Hin m. apply binary64_refused. now apply Hspec.
  - intros Hout m. apply binary64_accepted.
    + apply gui_divisor_nonzero; lia.
    + destruct (stretched_refused_at k) eqn:Hr; [|exact Hr].
      exfalso. apply Hout. now apply Hspec.
  - split; [reflexivity|]. vm_compute. tauto.
Qed.

Lemma stretched_arm_on_binary64_witness :
  Binary64.inverse_kinematics Binary64.table (Binary64.hundredths (2 * 30))
    (Binary64.hundredths 0) (Binary64.hundredths 30) (Binary64.hundredths 30)
  = Return (None, None).
Proof.
  destruct (stretched_arm_on_binary64 30 ltac:(lia)) as (_ & H & _ & _ & Hin).
  exact (H Hin Binary64.table).
Defined.

